(** * qxdl-gentle: the polite sequential downloader (main.go)

    A shallow embedding of [main.go] and the properties of its politeness
    and retry scheduler.

    Conventions of the embedding.
    - Go's [int], [int64] and [time.Duration] are 64-bit two's-complement
      integers: they are values of [Z], and every arithmetic operation of
      the source is followed by [wrap64].  A [time.Duration] counts
      nanoseconds.
    - A [float64] is read as the rational number it denotes and the float
      operations of the source ([*], [math.Pow]) as the exact operations
      on [Q]: binary64 rounding, infinities and NaN are outside the model.
      The conversion of a float to [time.Duration] truncates toward zero.
    - Go strings are byte strings: [string].
    - The network, the local disk and the random generator are inputs of
      the run: an oracle answers every call of [downloadFile] and every
      draw of [rand.Int63n].
    - Log output is left out ([quiet] only switches it); the run records
      the actions it takes as a list of events. *)

From Stdlib Require Import ZArith QArith Qround Qpower Qabs Lia Lqa String Ascii List.
From stdpp Require Import gmap strings list pretty.
Import ListNotations.

Local Open Scope Z_scope.

(** ** Machine integers and durations *)

Definition min_int64 : Z := - 2 ^ 63.
Definition max_int64 : Z := 2 ^ 63 - 1.

Definition in_int64 (z : Z) : bool := (min_int64 <=? z) && (z <=? max_int64).

(** Two's-complement reduction of an integer result to 64 bits. *)
Definition wrap64 (z : Z) : Z := (z + 2 ^ 63) mod 2 ^ 64 - 2 ^ 63.

(** [time.Second], in nanoseconds. *)
Definition Second : Z := 1000000000.

(** [time.Duration(n) * time.Second] for an [int] n. *)
Definition seconds (n : Z) : Z := wrap64 (n * Second).

(** [float64(d)] for an integer d. *)
Definition float64 (d : Z) : Q := inject_Z d.

(** Truncation of a rational toward zero. *)
Definition truncQ (q : Q) : Z := Z.quot (Qnum q) (Z.pos (Qden q)).

(** [time.Duration(f)] for a [float64] f: the fractional part is dropped.
    When the value does not fit in 64 bits the Go specification leaves the
    result to the implementation; the README builds for amd64, whose
    conversion instruction then yields the minimum integer. *)
Definition toDuration (f : Q) : Z :=
  let t := truncQ f in
  if in_int64 t then t else min_int64.

(** [math.Pow(x, float64(k))] for an integer k. *)
Definition Pow (x : Q) (k : Z) : Q := Qpower x k.

(** The builtin shadowed at the end of main.go. *)
Definition min (a b : Z) : Z := if a <? b then a else b.

(** ** sleepWithJitter (main.go, 195-210) *)

(** [rand.Int63n(n)]: panics when [n <= 0]; otherwise some value of
    [0, n).  The argument [r] is the raw value of the generator. *)
Definition Int63n (n r : Z) : option Z :=
  if n <=? 0 then None else Some (r mod n).

(** What one call of [sleepWithJitter] does: it returns at once, sleeps
    for [wait] nanoseconds, or panics inside [rand.Int63n]. *)
Inductive sleepResult : Type :=
  | NoSleep
  | Slept (wait : Z)
  | SleepPanic.

Definition sleepWithJitter (base : Z) (jitterFrac : Q) (r : Z) : sleepResult :=
  if base <=? 0 then NoSleep
  else
    let j := toDuration (float64 base * jitterFrac) in
    match Int63n (wrap64 (2 * j + 1)) r with
    | None => SleepPanic
    | Some v =>
        let delta := wrap64 (v - j) in
        let wait := wrap64 (base + delta) in
        Slept (if wait <? 0 then 0 else wait)
    end.


(** ** Labels: isAllDigits, toDec and the format verb %0*d *)

Definition byteVal (c : ascii) : Z := Z.of_N (N_of_ascii c).

Definition isDigit (c : ascii) : bool := (48 <=? byteVal c) && (byteVal c <=? 57).

(** A byte above '9' is either itself a rune above '9' or part of a longer
    (or broken) encoding, whose rune is above '9' too: the loop over the
    runes accepts exactly the strings of ASCII digits. *)
Fixpoint isAllDigits (s : string) : bool :=
  match s with
  | EmptyString => true
  | String c s' => isDigit c && isAllDigits s'
  end.

(** [int(s[i]-'0')]: the subtraction is on bytes. *)
Definition digitVal (c : ascii) : Z := (byteVal c - 48) mod 256.

Fixpoint skipZeros (s : string) : string :=
  match s with
  | String "0" s' => skipZeros s'
  | _ => s
  end.

Fixpoint toDecLoop (n : Z) (s : string) : Z :=
  match s with
  | EmptyString => n
  | String c s' => toDecLoop (wrap64 (wrap64 (n * 10) + digitVal c)) s'
  end.

Definition toDec (s : string) : Z :=
  match skipZeros s with
  | EmptyString => 0
  | t => toDecLoop 0 t
  end.

Fixpoint zeros (n : nat) : string :=
  match n with
  | O => EmptyString
  | S n' => String "0" (zeros n')
  end.

Definition zeroPad (width : nat) (digits : string) : string :=
  zeros (width - String.length digits) +:+ digits.

(** [fmt.Sprintf("%0*d", pad, i)]: the decimal digits of [i], filled with
    zeros on the left up to [pad] characters; a minus sign counts in the
    width. *)
Definition Sprintf_0d (pad : nat) (i : Z) : string :=
  match i with
  | Z.neg p => "-" +:+ zeroPad (pad - 1) (pretty (N.pos p))
  | _ => zeroPad pad (pretty (Z.to_N i))
  end.

(** ** Retry-After: strings.TrimSpace, strconv.Atoi, parseRetryAfter *)

(** ASCII white space: tab, line feed, vertical tab, form feed, carriage
    return and space. *)
Definition isSpace (c : ascii) : bool :=
  ((9 <=? byteVal c) && (byteVal c <=? 13)) || (byteVal c =? 32).

Fixpoint trimLeft (s : string) : string :=
  match s with
  | String c s' => if isSpace c then trimLeft s' else s
  | EmptyString => EmptyString
  end.

Fixpoint trimRight (s : string) : string :=
  match s with
  | EmptyString => EmptyString
  | String c s' =>
      match trimRight s' with
      | EmptyString => if isSpace c then EmptyString else String c EmptyString
      | t => String c t
      end
  end.

Definition TrimSpace (s : string) : string := trimRight (trimLeft s).

Fixpoint parseDigits (acc : Z) (s : string) : option Z :=
  match s with
  | EmptyString => Some acc
  | String c s' =>
      if isDigit c then parseDigits (acc * 10 + (byteVal c - 48)) s' else None
  end.

(** [strconv.Atoi]: an optional sign and at least one decimal digit; a
    value outside the range of [int] is an error. *)
Definition Atoi (s : string) : option Z :=
  let signed (neg : bool) (digits : string) : option Z :=
    match digits with
    | EmptyString => None
    | _ =>
        match parseDigits 0 digits with
        | Some v =>
            let v := if neg then - v else v in
            if in_int64 v then Some v else None
        | None => None
        end
    end in
  match s with
  | String "-" t => signed true t
  | String "+" t => signed false t
  | _ => signed false s
  end.

Definition clamp64 (z : Z) : Z :=
  if z <? min_int64 then min_int64
  else if max_int64 <? z then max_int64 else z.

(** [time.Until(t)] at the instant [now]; instants are nanoseconds on the
    time line, and the difference saturates at the ends of
    [time.Duration]. *)
Definition Until (t now : Z) : Z := clamp64 (t - now).

(** ** The data of a fetch: dlResult, the network and the disk *)

(** The value of type [error]: its message, [None] for [nil]. *)
Definition error : Type := option string.

Record dlResult : Type := mkResult {
  StatusCode : Z;
  RetryAfter : Z;
  Err : error
}.

(** What the network does with one request. *)
Inductive netReply : Type :=
  | RequestError (e : string)
      (* http.NewRequestWithContext fails *)
  | TransportError (e : string)
      (* client.Do fails: no response (connection, timeout, ...) *)
  | Response (status : Z) (retryAfter : string) (body : string).
      (* a response; [retryAfter] is [Header.Get("Retry-After")],
         empty when the header is absent *)

(** What the local disk does during one call: each operation may fail;
    [io.Copy] fails after a number of bytes of the body (for an error of
    the disk or of the connection while the body drains). *)
Record diskFaults : Type := mkFaults {
  createErr : error;
  copyErr : option (nat * string);
  closeErr : error;
  renameErr : error
}.

Record attempt : Type := mkAttempt {
  reply : netReply;
  clock : Z;
  disk : diskFaults
}.

(** The files on disk: path to content. *)
Abbreviation filesys := (gmap string string).

(** The calls of the source on the disk, as far as they took effect:
    [os.Create], the bytes [io.Copy] wrote, [f.Close] and [os.Rename].  A
    call of [os.Create] or [os.Rename] that fails changes nothing and is
    not listed. *)
Inductive fsOp : Type :=
  | OpCreate (p : string)
  | OpWrite (p : string) (data : string)
  | OpClose (p : string)
  | OpRename (src dst : string).

Definition applyOp (fs : filesys) (op : fsOp) : filesys :=
  match op with
  | OpCreate p => <[p := EmptyString]> fs
  | OpWrite p data =>
      match fs !! p with
      | Some old => <[p := old +:+ data]> fs
      | None => fs
      end
  | OpClose _ => fs
  | OpRename src dst =>
      match fs !! src with
      | Some data => <[dst := data]> (delete src fs)
      | None => fs
      end
  end.

Definition applyOps (fs : filesys) (ops : list fsOp) : filesys :=
  foldl applyOp fs ops.

(** The first [n] bytes of a string. *)
Fixpoint prefix (n : nat) (s : string) : string :=
  match n, s with
  | S n', String c s' => String c (prefix n' s')
  | _, _ => EmptyString
  end.

Section Fetcher.

(** [http.ParseTime]: the instant an HTTP-date denotes, if the text is one
    of the three accepted date formats. *)
Variable ParseTime : string -> option Z.

Definition parseRetryAfter (now : Z) (v : string) : Z * bool :=
  let httpDate :=
    match ParseTime v with
    | Some t =>
        let d := Until t now in
        ((if d <? 0 then 0 else d), true)
    | None => (0, false)
    end in
  match Atoi (TrimSpace v) with
  | Some secs => if 0 <=? secs then (seconds secs, true) else httpDate
  | None => httpDate
  end.

(** ** downloadFile (main.go, 212-262) *)

(** One call [downloadFile(client, urlNow, fileNow, ua, timeout)]: the
    result, and the disk operations performed, in order. *)
Definition downloadFile (a : attempt) (fileNow : string) : dlResult * list fsOp :=
  match reply a with
  | RequestError e => (mkResult 0 0 (Some e), [])
  | TransportError e => (mkResult 0 0 (Some e), [])
  | Response status ra body =>
      let res := mkResult status 0 None in
      let res :=
        if String.eqb ra EmptyString then res
        else
          match parseRetryAfter (clock a) ra with
          | (dur, true) => mkResult status dur None
          | (_, false) => res
          end in
      if negb (status =? 200) then (res, [])
      else
        let tmp := fileNow +:+ ".part" in
        let failed e := mkResult (StatusCode res) (RetryAfter res) (Some e) in
        match createErr (disk a) with
        | Some e => (failed e, [])
        | None =>
            match copyErr (disk a) with
            | Some (n, e) =>
                (failed e, [OpCreate tmp; OpWrite tmp (prefix n body); OpClose tmp])
            | None =>
                match closeErr (disk a) with
                | Some e => (failed e, [OpCreate tmp; OpWrite tmp body; OpClose tmp])
                | None =>
                    match renameErr (disk a) with
                    | Some e =>
                        (failed e, [OpCreate tmp; OpWrite tmp body; OpClose tmp])
                    | None =>
                        (res, [OpCreate tmp; OpWrite tmp body; OpClose tmp;
                               OpRename tmp fileNow])
                    end
                end
            end
        end
  end.

End Fetcher.

(** ** The set-up of main (main.go, 60-87) *)

(** The checks on -start and -end and the three values the loop uses:
    [pad], [startNum] and [endNum]; [None] when main exits. *)
Definition setup (startStr endStr : string) : option (nat * Z * Z) :=
  if String.eqb startStr EmptyString then None
  else if negb (isAllDigits startStr) then None
  else
    let endStr := if String.eqb endStr EmptyString then startStr else endStr in
    if negb (isAllDigits endStr) then None
    else
      let pad := String.length startStr in
      let startNum := toDec startStr in
      let endNum := toDec endStr in
      if endNum <? startNum then None else Some (pad, startNum, endNum).

(** ** The loop of main (main.go, 105-188) *)

(** The settings read from the command line, and what main derives from
    them before the loop: [pad], [startNum], [endNum], the URL prefix
    [base] and the download [folder]. *)
Record config : Type := mkConfig {
  interval : Z;
  jitterFrac : Q;
  retries : Z;
  maxWait : Z;
  backoff : Q;
  maxErrors : Z;
  ext : string;
  pad : nat;
  startNum : Z;
  endNum : Z;
  base : string;
  folder : string
}.

(** The actions of a run, in order. *)
Inductive event : Type :=
  | EvSkip (i : Z)
      (* the file of index i exists: not fetched *)
  | EvFetch (i : Z) (attempt : nat) (res : dlResult) (consec : Z)
      (* a call of downloadFile for index i: attempt 0 is the first one,
         attempt k the k-th retry; its result; and consecErrors once the
         result is accounted for *)
  | EvSleep (wait : Z) (out : sleepResult)
      (* a call sleepWithJitter(wait, jitterFrac, quiet) and what it did *)
  | EvAbort (consec : Z).
      (* "Too many consecutive errors": the loop is left *)

(** The variables of main that change in the loop, with the disk and the
    number of draws taken from the random generator. *)
Record runState : Type := mkState {
  files : filesys;
  consecErrors : Z;
  draws : nat
}.

(** How one turn of the loop ends. *)
Inductive control : Type :=
  | Next      (* the turn is over, the loop goes on *)
  | Break     (* break *)
  | Crash.    (* panic *)

(** How the retry loop ends. *)
Inductive retryEnd : Type :=
  | RetryOk          (* ok = true *)
  | RetryExhausted   (* ok = false *)
  | RetryCrash.      (* panic *)

(** How the run ends. *)
Inductive ending : Type :=
  | Done
  | Aborted
  | Panicked.

(** Line 126: the result is a failure. *)
Definition isFailure (res : dlResult) : bool :=
  bool_decide (Err res <> None)
  || ((400 <=? StatusCode res) && negb (StatusCode res =? 404)).

(** Line 158: the retry succeeded. *)
Definition isSuccess (res : dlResult) : bool :=
  bool_decide (Err res = None) && (StatusCode res =? 200).

(** The indices the loop visits: startNum, startNum + 1, ..., endNum
    (endNum is below the largest [int], so that i++ does not wrap). *)
Definition indices (startNum endNum : Z) : list Z :=
  map (fun k => startNum + Z.of_nat k) (seq 0 (Z.to_nat (endNum - startNum + 1))).

Section Run.

Variable ParseTime : string -> option Z.

Variable cfg : config.

(** The answer of the network and the disk to attempt k for index i. *)
Variable world : Z -> nat -> attempt.

(** The raw value of the n-th draw of the random generator. *)
Variable rnd : nat -> Z.


(** [filepath.Join(folder, numStr+"."+ext)]. *)
Definition fileNow (i : Z) : string :=
  folder cfg +:+ "/" +:+ Sprintf_0d (pad cfg) i +:+ "." +:+ ext cfg.

(** Lines 143-145: the exponential backoff, [consec] being consecErrors
    after its increment. *)
Definition backoffWait (consec : Z) : Z :=
  let wait := seconds (interval cfg) in
  let m := Pow (backoff cfg) (min consec 6) in
  toDuration (float64 wait * m).

(** Lines 147-149: the cap on the wait. *)
Definition capWait (wait : Z) : Z :=
  if seconds (maxWait cfg) <? wait then seconds (maxWait cfg) else wait.

(** Lines 137-149: the wait after a first attempt that failed, before
    jitter. *)
Definition errorWait (consec : Z) (res : dlResult) : Z :=
  let wait :=
    if (StatusCode res =? 429) && (0 <? RetryAfter res) then RetryAfter res
    else if (StatusCode res =? 503) && (0 <? RetryAfter res) then RetryAfter res
    else backoffWait consec in
  capWait wait.

(** Lines 167-170: the wait after a retry that failed, before jitter. *)
Definition retryWait (res : dlResult) : Z :=
  let rw := seconds (interval cfg) in
  if 0 <? RetryAfter res then RetryAfter res else rw.

(** A call of sleepWithJitter in the loop: the event, the state after it,
    and whether the call returned. *)
Definition sleep (wait : Z) (st : runState) : event * runState * bool :=
  let out := sleepWithJitter wait (jitterFrac cfg) (rnd (draws st)) in
  (EvSleep wait out,
   mkState (files st) (consecErrors st) (S (draws st)),
   match out with SleepPanic => false | _ => true end).

(** A call of downloadFile in the loop. *)
Definition fetch (i : Z) (k : nat) (st : runState) : dlResult * runState :=
  let '(res, ops) := downloadFile ParseTime (world i k) (fileNow i) in
  (res, mkState (applyOps (files st) ops) (consecErrors st) (draws st)).

(** Lines 153-172: [n] turns of the retry loop are left and the next
    retry is number [k]. *)
Fixpoint retryLoop (n : nat) (k : nat) (i : Z) (st : runState)
  : list event * runState * retryEnd :=
  match n with
  | O => ([], st, RetryExhausted)
  | S n' =>
      let '(res, st) := fetch i k st in
      if isSuccess res then
        ([EvFetch i k res 0], mkState (files st) 0 (draws st), RetryOk)
      else
        let '(ev, st, returned) := sleep (retryWait res) st in
        if returned then
          let '(tr, st', e) := retryLoop n' (S k) i st in
          (EvFetch i k res (consecErrors st) :: ev :: tr, st', e)
        else ([EvFetch i k res (consecErrors st); ev], st, RetryCrash)
  end.

(** Lines 184-187: the wait between two files. *)
Definition politeWait (i : Z) (st : runState) : list event * runState * control :=
  if i <? endNum cfg then
    let '(ev, st, returned) := sleep (seconds (interval cfg)) st in
    ([ev], st, if returned then Next else Crash)
  else ([], st, Next).

(** Lines 108-187: the body of the loop for index [i]. *)
Definition iteration (i : Z) (st : runState) : list event * runState * control :=
  if bool_decide (is_Some (files st !! fileNow i)) then
    let '(ev, st, returned) := sleep (seconds (interval cfg)) st in
    ([EvSkip i; ev], st, if returned then Next else Crash)
  else
    let '(res, st) := fetch i 0 st in
    if isFailure res then
      let consec := wrap64 (consecErrors st + 1) in
      let st := mkState (files st) consec (draws st) in
      if maxErrors cfg <=? consec then
        ([EvFetch i 0 res consec; EvAbort consec], st, Break)
      else
        let '(ev, st, returned) := sleep (errorWait consec res) st in
        if returned then
          let '(tr, st, e) := retryLoop (Z.to_nat (retries cfg)) 1 i st in
          let head := EvFetch i 0 res consec :: ev :: tr in
          match e with
          | RetryOk =>
              let '(tr', st, c) := politeWait i st in
              (head ++ tr', st, c)
          | RetryExhausted => (head, st, Next)
          | RetryCrash => (head, st, Crash)
          end
        else ([EvFetch i 0 res consec; ev], st, Crash)
    else
      let st := mkState (files st) 0 (draws st) in
      let '(tr', st, c) := politeWait i st in
      (EvFetch i 0 res 0 :: tr', st, c).

(** The loop over the indices still to visit. *)
Fixpoint loop (idx : list Z) (st : runState) : list event * runState * ending :=
  match idx with
  | [] => ([], st, Done)
  | i :: rest =>
      let '(tr, st, c) := iteration i st in
      match c with
      | Next =>
          let '(tr', st', e) := loop rest st in
          (tr ++ tr', st', e)
      | Break => (tr, st, Aborted)
      | Crash => (tr, st, Panicked)
      end
  end.

(** Lines 105-188: the run, from the disk [fs]. *)
Definition run (fs : filesys) : list event * runState * ending :=
  loop (indices (startNum cfg) (endNum cfg)) (mkState fs 0 O).


End Run.

Arguments sleep : simpl never.
Arguments fetch : simpl never.
Arguments politeWait : simpl never.
Arguments errorWait : simpl never.
Arguments retryWait : simpl never.
Arguments sleepWithJitter : simpl never.
Arguments downloadFile : simpl never.

(** ** Reading a trace *)

(** [always P tr tail]: every event of [tr], with the events that follow
    it in [tr ++ tail], satisfies [P]. *)
Fixpoint always (P : event -> list event -> Prop) (tr tail : list event) : Prop :=
  match tr with
  | [] => True
  | e :: rest => P e (rest ++ tail) /\ always P rest tail
  end.

(** The events begin with the first action on a file, or there are none. *)
Definition startsFile (tr : list event) : Prop :=
  match tr with
  | [] => True
  | EvSkip _ :: _ => True
  | EvFetch _ O _ _ :: _ => True
  | _ => False
  end.

(** The next file starts, possibly after the wait between two files. *)
Definition politeOrNext (cfg : config) (rest : list event) : Prop :=
  startsFile rest \/
  exists out rest',
    rest = EvSleep (seconds (interval cfg)) out :: rest' /\ startsFile rest'.

(** Retry [k] for index [i] follows, or the next file starts. *)
Definition retryOrNext (i : Z) (k : nat) (rest : list event) : Prop :=
  startsFile rest \/ exists res c rest', rest = EvFetch i k res c :: rest'.

(** What follows each event of a run, and the counter a fetch leaves. *)
Definition scheduleRule (cfg : config) (e : event) (rest : list event) : Prop :=
  match e with
  | EvSkip i =>
      exists out rest',
        rest = EvSleep (seconds (interval cfg)) out :: rest' /\ startsFile rest'
  | EvFetch i O res c =>
      if isFailure res then
        if maxErrors cfg <=? c then rest = [EvAbort c]
        else
          exists out rest',
            rest = EvSleep (errorWait cfg c res) out :: rest' /\ retryOrNext i 1 rest'
      else c = 0 /\ politeOrNext cfg rest
  | EvFetch i (S k) res c =>
      if isSuccess res then c = 0 /\ politeOrNext cfg rest
      else
        c < maxErrors cfg /\
        exists out rest',
          rest = EvSleep (retryWait cfg res) out :: rest'
          /\ retryOrNext i (S (S k)) rest'
  | EvSleep w out =>
      match rest with
      | EvSleep _ _ :: _ => False
      | EvAbort _ :: _ => False
      | _ => out = SleepPanic -> rest = []
      end
  | EvAbort c => rest = []
  end.

(** consecErrors after the events [tr], when it was [c] before them: the
    value the last fetch left. *)
Fixpoint counterAfter (c : Z) (tr : list event) : Z :=
  match tr with
  | [] => c
  | EvFetch _ _ _ c' :: rest => counterAfter c' rest
  | _ :: rest => counterAfter c rest
  end.

(** consecErrors once the result of attempt [k] is accounted for, when it
    was [c] before the attempt. *)
Definition nextCounter (c : Z) (k : nat) (res : dlResult) : Z :=
  match k with
  | O => if isFailure res then c + 1 else 0
  | S _ => if isSuccess res then 0 else c
  end.

(** Every fetch of [tr] leaves the counter [nextCounter] gives, from the
    value [c] before [tr]. *)
Fixpoint counted (c : Z) (tr : list event) : Prop :=
  match tr with
  | [] => True
  | EvFetch _ k res c' :: rest => c' = nextCounter c k res /\ counted c' rest
  | _ :: rest => counted c rest
  end.

(** ** Counting the actions of a run *)

(** The indices of the files a trace starts on (a skip or a first
    attempt), in order. *)
Fixpoint visited (tr : list event) : list Z :=
  match tr with
  | [] => []
  | EvSkip i :: rest => i :: visited rest
  | EvFetch i O _ _ :: rest => i :: visited rest
  | _ :: rest => visited rest
  end.

(** The number of calls of downloadFile in a trace. *)
Fixpoint requests (tr : list event) : nat :=
  match tr with
  | [] => O
  | EvFetch _ _ _ _ :: rest => S (requests rest)
  | _ :: rest => requests rest
  end.

(** The event is not an action on a file other than the one of index [i]. *)
Definition forIndex (i : Z) (e : event) : Prop :=
  match e with
  | EvSkip j => j = i
  | EvFetch j _ _ _ => j = i
  | _ => True
  end.


(** ** The backoff in the words of the specification *)


(** ** A server that never sends a hint of zero *)

(** The same answer with the Retry-After header removed when the header
    parses to a wait of zero. *)
Definition dropZeroHint (ParseTime : string -> option Z) (a : attempt) : attempt :=
  match reply a with
  | Response status ra body =>
      match parseRetryAfter ParseTime (clock a) ra with
      | (0, true) => mkAttempt (Response status EmptyString body) (clock a) (disk a)
      | _ => a
      end
  | _ => a
  end.

(** ** Sample servers and settings *)

(** A table of HTTP-dates for the samples: the epoch is instant 0. *)
Definition sampleDates (v : string) : option Z :=
  if String.eqb v "Thu, 01 Jan 1970 00:00:00 GMT" then Some 0 else None.

Definition noFaults : diskFaults := mkFaults None None None None.

(** A response received at instant 1000, on a healthy disk. *)
Definition answer (status : Z) (retryAfter body : string) : attempt :=
  mkAttempt (Response status retryAfter body) 1000 noFaults.

(** A server that gives [first] to every first attempt and [later] to
    every retry. *)
Definition server (first later : attempt) : Z -> nat -> attempt :=
  fun _ k => match k with O => first | S _ => later end.

(** The defaults of the flags (interval 6, max-wait 300, backoff 2, ext
    png) with -jitter 0.25, for the labels of width 4. *)
Definition sample (retries maxErrors startNum endNum : Z) : config :=
  mkConfig 6 (1 # 4) retries 300 2 maxErrors "png" 4 startNum endNum
           "https://host/path/" "path".


(** The settings of the scenarios of the specification: no jitter, labels
    of width 4, backoff 2. *)
Definition scenario (interval retries maxWait maxErrors startNum endNum : Z) : config :=
  mkConfig interval 0 retries maxWait 2 maxErrors "png" 4 startNum endNum
           "https://host/path/" "path".

(** A server that answers 429 with Retry-After 10 to the first attempt
    for index 65, and 200 to everything else. *)
Definition busyAt65 : Z -> nat -> attempt :=
  fun i k =>
    match k with
    | O => if i =? 65 then answer 429 "10" "" else answer 200 "" "data"
    | S _ => answer 200 "" "data"
    end.

(** A generator that always draws 0: every wait is at its lower end. *)
Definition lowDraws : nat -> Z := fun _ => 0.

(** * Properties *)

(** ** Machine integers and truncation *)

Lemma wrap64_small (z : Z) : min_int64 <= z <= max_int64 -> wrap64 z = z.
Proof.
  unfold wrap64, min_int64, max_int64. intros H.
  rewrite Z.mod_small; lia.
Qed.

Lemma in_int64_true (z : Z) : min_int64 <= z <= max_int64 -> in_int64 z = true.
Proof. unfold in_int64. intros H. apply andb_true_intro. split; apply Z.leb_le; lia. Qed.


Lemma Qnum_nonneg (q : Q) : (0 <= q)%Q -> 0 <= Qnum q.
Proof. destruct q as [n d]. unfold Qle. simpl. lia. Qed.

Lemma truncQ_floor (q : Q) : (0 <= q)%Q -> truncQ q = Qfloor q.
Proof.
  intros H. apply Qnum_nonneg in H. destruct q as [n d]. unfold truncQ, Qfloor.
  simpl in *. apply Z.quot_div_nonneg; lia.
Qed.

Lemma truncQ_nonneg (q : Q) : (0 <= q)%Q -> 0 <= truncQ q.
Proof.
  intros H. rewrite truncQ_floor by exact H.
  rewrite <- (Qfloor_Z 0). apply Qfloor_resp_le. exact H.
Qed.


Lemma truncQ_upper (q : Q) (z : Z) : (0 <= q)%Q -> (q <= inject_Z z)%Q -> truncQ q <= z.
Proof.
  intros H0 H. rewrite truncQ_floor by exact H0.
  rewrite <- (Qfloor_Z z). apply Qfloor_resp_le. exact H.
Qed.

Lemma truncQ_mono (p q : Q) : (0 <= p)%Q -> (p <= q)%Q -> truncQ p <= truncQ q.
Proof.
  intros H0 H. rewrite !truncQ_floor.
  - apply Qfloor_resp_le. exact H.
  - eapply Qle_trans; eassumption.
  - exact H0.
Qed.

Lemma toDuration_exact (q : Q) :
  (0 <= q)%Q -> truncQ q <= max_int64 -> toDuration q = truncQ q.
Proof.
  intros H0 H. unfold toDuration. cbv zeta.
  rewrite in_int64_true; [reflexivity|].
  pose proof (truncQ_nonneg q H0). unfold min_int64. lia.
Qed.

(** ** The jitter of a wait *)









(** ** The exponential backoff *)

Section Backoff.

Variable cfg : config.

(** The interval is not negative, and the interval and the cap, in
    nanoseconds, fit in a 64-bit duration. *)
Hypothesis interval_fits : 0 <= interval cfg * Second <= max_int64.
Hypothesis maxWait_fits : min_int64 <= maxWait cfg * Second <= max_int64.

Hypothesis backoff_gt_1 : (1 < backoff cfg)%Q.

(** The largest product of the backoff, at exponent 6, fits too. *)
Hypothesis backoff_fits :
  (float64 (interval cfg * Second) * backoff cfg ^ 6 <= inject_Z max_int64)%Q.






End Backoff.

(** ** Traces: what follows what *)

Lemma always_app (P : event -> list event -> Prop) (l1 l2 tail : list event) :
  always P (l1 ++ l2) tail <-> always P l1 (l2 ++ tail) /\ always P l2 tail.
Proof.
  induction l1 as [|e l1 IH]; simpl.
  - tauto.
  - rewrite IH, <- app_assoc. tauto.
Qed.

Lemma always_split (P : event -> list event -> Prop) (tr tail pre post : list event)
    (e : event) :
  always P tr tail -> tr = pre ++ e :: post -> P e (post ++ tail).
Proof.
  intros H ->. apply always_app in H as [_ H]. simpl in H. tauto.
Qed.

Lemma startsFile_not_sleep (rest : list event) (w : Z) (out : sleepResult) (r : list event) :
  startsFile rest -> rest <> EvSleep w out :: r.
Proof. intros H ->. exact H. Qed.

Lemma counterAfter_app (c : Z) (l1 l2 : list event) :
  counterAfter c (l1 ++ l2) = counterAfter (counterAfter c l1) l2.
Proof.
  revert c. induction l1 as [|[i|i k res c'|w out|c'] l1 IH]; intros c; simpl; auto.
Qed.

Lemma counted_app (c : Z) (l1 l2 : list event) :
  counted c (l1 ++ l2) <-> counted c l1 /\ counted (counterAfter c l1) l2.
Proof.
  revert c. induction l1 as [|[i|i k res c'|w out|c'] l1 IH]; intros c; simpl;
    try apply IH; [tauto|].
  rewrite IH. tauto.
Qed.

Lemma counted_split (c c' : Z) (tr pre post : list event) (i : Z) (k : nat)
    (res : dlResult) :
  counted c tr -> tr = pre ++ EvFetch i k res c' :: post ->
  c' = nextCounter (counterAfter c pre) k res.
Proof.
  intros H ->. apply counted_app in H as [_ H]. simpl in H. tauto.
Qed.

Section Traces.

Variable ParseTime : string -> option Z.
Variable cfg : config.
Variable world : Z -> nat -> attempt.
Variable rnd : nat -> Z.

Lemma sleep_inv (w : Z) (st st' : runState) (ev : event) (returned : bool) :
  sleep cfg rnd w st = (ev, st', returned) ->
  exists out, ev = EvSleep w out
    /\ (returned = true -> out <> SleepPanic)
    /\ (returned = false -> out = SleepPanic)
    /\ consecErrors st' = consecErrors st.
Proof.
  unfold sleep. intros H. inversion H; subst; clear H.
  eexists. split; [reflexivity|]. simpl.
  destruct (sleepWithJitter w (jitterFrac cfg) (rnd (draws st)));
    repeat split; congruence.
Qed.

Lemma fetch_counter (i : Z) (k : nat) (st st' : runState) (res : dlResult) :
  fetch ParseTime cfg world i k st = (res, st') -> consecErrors st' = consecErrors st.
Proof.
  unfold fetch. destruct (downloadFile _ _ _) as [r ops].
  intros H. inversion H; subst. reflexivity.
Qed.

(** The rule of a wait, from what follows it. *)
Lemma rule_sleep (w : Z) (out : sleepResult) (rest : list event) :
  (startsFile rest \/ exists i k res c r, rest = EvFetch i k res c :: r) ->
  (out = SleepPanic -> rest = []) ->
  scheduleRule cfg (EvSleep w out) rest.
Proof.
  intros Hrest Hp. simpl.
  destruct rest as [|[i|i k res c|w' o'|c] r]; try exact Hp.
  - destruct Hrest as [H | (i & k & res & c & r' & H)]; [exact H | discriminate].
  - destruct Hrest as [H | (i & k & res & c' & r' & H)]; [exact H | discriminate].
Qed.

Lemma retryOrNext_sleep (i : Z) (k : nat) (rest : list event) :
  retryOrNext i k rest ->
  startsFile rest \/ exists i k res c r, rest = EvFetch i k res c :: r.
Proof.
  intros [H | (res & c & r & H)]; [left; exact H | right; eauto 6].
Qed.

Lemma retryLoop_rule (n : nat) :
  forall (k : nat) (i : Z) (st st' : runState) (tr tail : list event) (e : retryEnd),
    retryLoop ParseTime cfg world rnd n (S k) i st = (tr, st', e) ->
    consecErrors st < maxErrors cfg ->
    (e = RetryExhausted -> startsFile tail) ->
    (e = RetryCrash -> tail = []) ->
    (e = RetryOk -> politeOrNext cfg tail) ->
    always (scheduleRule cfg) tr tail /\ retryOrNext i (S k) (tr ++ tail).
Proof.
  induction n as [|n IH]; intros k i st st' tr tail e Hrun Hlt Hex Hcr Hok;
    cbn [retryLoop] in Hrun.
  - inversion Hrun; subst. simpl. split; [exact I|]. left. apply Hex. reflexivity.
  - destruct (fetch ParseTime cfg world i (S k) st) as [res st1] eqn:Hf.
    pose proof (fetch_counter _ _ _ _ _ Hf) as Hc1.
    destruct (isSuccess res) eqn:Hs.
    + inversion Hrun; subst. simpl. rewrite Hs.
      split; [|right; eauto].
      split; [|exact I]. split; [reflexivity | apply Hok; reflexivity].
    + destruct (sleep cfg rnd (retryWait cfg res) st1) as [[ev st2] returned] eqn:Hsl.
      destruct (sleep_inv _ _ _ _ _ Hsl) as (out & -> & Hret & Hnret & Hc2).
      destruct returned.
      * destruct (retryLoop ParseTime cfg world rnd n (S (S k)) i st2)
          as [[tr' st3] e'] eqn:Hrec.
        inversion Hrun; subst.
        destruct (IH _ _ _ _ _ tail _ Hrec) as [Hal Hnext]; try assumption; [lia|].
        simpl. rewrite Hs.
        split; [|right; eauto].
        split; [split; [lia | eauto]|].
        split; [|exact Hal].
        apply (rule_sleep (retryWait cfg res) out (tr' ++ tail));
          [exact (retryOrNext_sleep _ _ _ Hnext)|].
        intros Hp. exfalso. apply Hret; [reflexivity | exact Hp].
      * inversion Hrun; subst. rewrite (Hcr eq_refl). simpl. rewrite Hs.
        split; [|right; eauto].
        split; [split; [lia|]; exists out, []; split; [reflexivity | left; exact I]|].
        split; [|exact I]. intros _. reflexivity.
Qed.

Lemma sleep_tail (w : Z) (st st' : runState) (ev : event) (returned : bool)
    (tail : list event) :
  sleep cfg rnd w st = (ev, st', returned) ->
  startsFile tail \/ (exists i k res c r, tail = EvFetch i k res c :: r) ->
  (returned = false -> tail = []) ->
  exists out, ev = EvSleep w out /\ scheduleRule cfg (EvSleep w out) tail.
Proof.
  intros Hsl Htail Hnil.
  destruct (sleep_inv _ _ _ _ _ Hsl) as (out & -> & Hret & Hnret & _).
  exists out. split; [reflexivity|].
  apply rule_sleep; [exact Htail|].
  intros Hp. destruct returned; [exfalso; apply Hret; [reflexivity | exact Hp]|].
  apply Hnil. reflexivity.
Qed.

Lemma politeWait_rule (i : Z) (st st' : runState) (tr tail : list event) (ctl : control) :
  politeWait cfg rnd i st = (tr, st', ctl) ->
  startsFile tail ->
  (ctl <> Next -> tail = []) ->
  always (scheduleRule cfg) tr tail /\ politeOrNext cfg (tr ++ tail)
  /\ ctl <> Break /\ consecErrors st' = consecErrors st.
Proof.
  unfold politeWait. intros Hrun Htail Hnil.
  destruct (i <? endNum cfg).
  - destruct (sleep cfg rnd (seconds (interval cfg)) st) as [[ev st1] returned] eqn:Hsl.
    inversion Hrun; subst; clear Hrun.
    destruct (sleep_tail _ _ _ _ _ tail Hsl) as (out & -> & Hrule).
    { left. exact Htail. }
    { intros ->. apply Hnil. discriminate. }
    destruct (sleep_inv _ _ _ _ _ Hsl) as (out' & _ & _ & _ & Hc).
    simpl. repeat split.
    + exact Hrule.
    + right. exists out, tail. split; [reflexivity | exact Htail].
    + destruct returned; discriminate.
    + exact Hc.
  - inversion Hrun; subst. simpl. repeat split; try discriminate.
    left. exact Htail.
Qed.

Lemma iteration_rule (i : Z) (st st' : runState) (tr tail : list event) (ctl : control) :
  iteration ParseTime cfg world rnd i st = (tr, st', ctl) ->
  startsFile tail ->
  (ctl <> Next -> tail = []) ->
  always (scheduleRule cfg) tr tail /\ startsFile tr /\ tr <> [].
Proof.
  unfold iteration. intros Hrun Htail Hnil.
  destruct (bool_decide (is_Some (files st !! fileNow cfg i))).
  - (* the file exists *)
    destruct (sleep cfg rnd (seconds (interval cfg)) st) as [[ev st1] returned] eqn:Hsl.
    inversion Hrun; subst; clear Hrun.
    destruct (sleep_tail _ _ _ _ _ tail Hsl) as (out & -> & Hrule).
    { left. exact Htail. }
    { intros ->. apply Hnil. discriminate. }
    simpl. repeat split; try discriminate; [|exact Hrule].
    exists out, tail. split; [reflexivity | exact Htail].
  - destruct (fetch ParseTime cfg world i 0 st) as [res st1] eqn:Hf.
    destruct (isFailure res) eqn:Hfail.
    + destruct (maxErrors cfg <=? wrap64 (consecErrors st1 + 1)) eqn:Hmax.
      * (* the threshold is reached *)
        inversion Hrun; subst; clear Hrun.
        rewrite Hnil by discriminate.
        simpl. rewrite Hfail, Hmax. repeat split; discriminate.
      * cbv zeta in Hrun.
        set (consec := wrap64 (consecErrors st1 + 1)) in *.
        apply Z.leb_gt in Hmax as Hlt.
        destruct (sleep cfg rnd (errorWait cfg consec res) _)
          as [[ev st2] returned] eqn:Hsl.
        destruct (sleep_inv _ _ _ _ _ Hsl) as (out & -> & Hret & _ & Hc2).
        simpl in Hc2.
        destruct returned.
        -- destruct (retryLoop ParseTime cfg world rnd (Z.to_nat (retries cfg)) 1 i st2)
             as [[trr st3] e] eqn:Hretry.
           assert (Hsleep : forall rest, retryOrNext i 1 rest ->
                     scheduleRule cfg (EvSleep (errorWait cfg consec res) out) rest).
           { intros rest Hn.
             apply (rule_sleep (errorWait cfg consec res) out rest);
               [exact (retryOrNext_sleep _ _ _ Hn)|].
             intros Hp. exfalso. apply Hret; [reflexivity | exact Hp]. }
           destruct e.
           ++ (* a retry succeeded *)
              destruct (politeWait cfg rnd i st3) as [[trp st4] c] eqn:Hpol.
              inversion Hrun; subst; clear Hrun.
              destruct (politeWait_rule _ _ _ _ tail _ Hpol Htail Hnil)
                as (Halp & Hnextp & _ & _).
              destruct (retryLoop_rule _ _ _ _ _ _ (trp ++ tail) _ Hretry)
                as [Halr Hnextr]; try discriminate; [lia | intros _; exact Hnextp |].
              simpl. rewrite Hfail, Hmax. rewrite <- app_assoc.
              repeat split; try discriminate.
              ** exists out, (trr ++ trp ++ tail). split; [reflexivity | exact Hnextr].
              ** apply Hsleep. exact Hnextr.
              ** apply always_app. split; assumption.
           ++ (* the retries are used up *)
              inversion Hrun; subst; clear Hrun.
              destruct (retryLoop_rule _ _ _ _ _ _ tail _ Hretry)
                as [Halr Hnextr]; try discriminate; [lia | intros _; exact Htail |].
              simpl. rewrite Hfail, Hmax.
              repeat split; try discriminate.
              ** exists out, (trr ++ tail). split; [reflexivity | exact Hnextr].
              ** apply Hsleep. exact Hnextr.
              ** exact Halr.
           ++ (* panic in a retry wait *)
              inversion Hrun; subst; clear Hrun.
              destruct (retryLoop_rule _ _ _ _ _ _ tail _ Hretry)
                as [Halr Hnextr]; try discriminate;
                [lia | intros _; apply Hnil; discriminate |].
              simpl. rewrite Hfail, Hmax.
              repeat split; try discriminate.
              ** exists out, (trr ++ tail). split; [reflexivity | exact Hnextr].
              ** apply Hsleep. exact Hnextr.
              ** exact Halr.
        -- (* panic in the wait after the failure *)
           inversion Hrun; subst; clear Hrun.
           rewrite Hnil by discriminate.
           simpl. rewrite Hfail, Hmax.
           repeat split; try discriminate.
           exists out, []. split; [reflexivity | left; exact I].
    + (* the first attempt is no failure *)
      cbv zeta in Hrun.
      destruct (politeWait cfg rnd i _) as [[trp st2] c] eqn:Hpol.
      inversion Hrun; subst; clear Hrun.
      destruct (politeWait_rule _ _ _ _ tail _ Hpol Htail Hnil)
        as (Halp & Hnextp & _ & _).
      simpl. rewrite Hfail. repeat split; try discriminate; assumption.
Qed.

Lemma loop_rule (idx : list Z) :
  forall (st st' : runState) (tr : list event) (e : ending),
    loop ParseTime cfg world rnd idx st = (tr, st', e) ->
    always (scheduleRule cfg) tr [] /\ startsFile tr.
Proof.
  induction idx as [|i rest IH]; intros st st' tr e Hrun; cbn [loop] in Hrun.
  - inversion Hrun; subst. simpl. tauto.
  - destruct (iteration ParseTime cfg world rnd i st) as [[tr1 st1] c] eqn:Hit.
    destruct c.
    + destruct (loop ParseTime cfg world rnd rest st1) as [[tr2 st2] e2] eqn:Hrest.
      inversion Hrun; subst; clear Hrun.
      destruct (IH _ _ _ _ Hrest) as [Hal2 Hst2].
      destruct (iteration_rule _ _ _ _ tr2 _ Hit Hst2) as (Hal1 & Hst1 & Hne).
      { intros H. exfalso. apply H. reflexivity. }
      split.
      * apply always_app. rewrite app_nil_r. split; assumption.
      * destruct tr1; [congruence | exact Hst1].
    + inversion Hrun; subst; clear Hrun.
      destruct (iteration_rule _ _ _ _ [] _ Hit I) as (Hal1 & Hst1 & Hne);
        [reflexivity|]. split; assumption.
    + inversion Hrun; subst; clear Hrun.
      destruct (iteration_rule _ _ _ _ [] _ Hit I) as (Hal1 & Hst1 & Hne);
        [reflexivity|]. split; assumption.
Qed.

(** What follows each event of a run, whatever the network, the disk and
    the random generator do. *)
Lemma run_rule (fs : filesys) (pre post : list event) (e : event) :
  fst (fst (run ParseTime cfg world rnd fs)) = pre ++ e :: post ->
  scheduleRule cfg e post.
Proof.
  intros H. unfold run in H.
  destruct (loop _ _ _ _ _ _) as [[tr st'] en] eqn:Hrun. simpl in H.
  destruct (loop_rule _ _ _ _ _ Hrun) as [Hal _].
  pose proof (always_split _ _ _ _ _ _ Hal H) as Hr.
  rewrite app_nil_r in Hr. exact Hr.
Qed.

Lemma run_startsFile (fs : filesys) :
  startsFile (fst (fst (run ParseTime cfg world rnd fs))).
Proof.
  unfold run. destruct (loop _ _ _ _ _ _) as [[tr st'] en] eqn:Hrun. simpl.
  exact (proj2 (loop_rule _ _ _ _ _ Hrun)).
Qed.

(** ** Traces: the failure counter *)

Lemma retryLoop_counted (n : nat) :
  forall (k : nat) (i : Z) (st st' : runState) (tr : list event) (e : retryEnd),
    retryLoop ParseTime cfg world rnd n (S k) i st = (tr, st', e) ->
    counted (consecErrors st) tr
    /\ consecErrors st' = counterAfter (consecErrors st) tr
    /\ (consecErrors st' = 0 \/ consecErrors st' = consecErrors st).
Proof.
  induction n as [|n IH]; intros k i st st' tr e Hrun; cbn [retryLoop] in Hrun.
  - inversion Hrun; subst. simpl. tauto.
  - destruct (fetch ParseTime cfg world i (S k) st) as [res st1] eqn:Hf.
    pose proof (fetch_counter _ _ _ _ _ Hf) as Hc1.
    destruct (isSuccess res) eqn:Hs.
    + inversion Hrun; subst. simpl. rewrite Hs. tauto.
    + destruct (sleep cfg rnd (retryWait cfg res) st1) as [[ev st2] returned] eqn:Hsl.
      destruct (sleep_inv _ _ _ _ _ Hsl) as (out & -> & _ & _ & Hc2).
      destruct returned.
      * destruct (retryLoop ParseTime cfg world rnd n (S (S k)) i st2)
          as [[tr' st3] e'] eqn:Hrec.
        inversion Hrun; subst.
        destruct (IH _ _ _ _ _ _ Hrec) as (Hcnt & Hfin & Hor).
        simpl. rewrite Hs. rewrite Hc2, Hc1 in *. tauto.
      * inversion Hrun; subst. simpl. rewrite Hs. rewrite Hc2, Hc1. tauto.
Qed.

Lemma politeWait_counted (i : Z) (st st' : runState) (tr : list event) (ctl : control)
    (c : Z) :
  politeWait cfg rnd i st = (tr, st', ctl) ->
  counted c tr /\ counterAfter c tr = c /\ consecErrors st' = consecErrors st.
Proof.
  unfold politeWait. intros Hrun.
  destruct (i <? endNum cfg).
  - destruct (sleep cfg rnd (seconds (interval cfg)) st) as [[ev st1] returned] eqn:Hsl.
    destruct (sleep_inv _ _ _ _ _ Hsl) as (out & -> & _ & _ & Hc).
    inversion Hrun; subst. simpl. tauto.
  - inversion Hrun; subst. simpl. tauto.
Qed.

Lemma iteration_counted (i : Z) (st st' : runState) (tr : list event) (ctl : control) :
  iteration ParseTime cfg world rnd i st = (tr, st', ctl) ->
  0 <= consecErrors st < max_int64 ->
  counted (consecErrors st) tr
  /\ consecErrors st' = counterAfter (consecErrors st) tr
  /\ 0 <= consecErrors st' <= consecErrors st + 1.
Proof.
  unfold iteration. intros Hrun Hc.
  destruct (bool_decide (is_Some (files st !! fileNow cfg i))).
  - destruct (sleep cfg rnd (seconds (interval cfg)) st) as [[ev st1] returned] eqn:Hsl.
    destruct (sleep_inv _ _ _ _ _ Hsl) as (out & -> & _ & _ & Hc1).
    inversion Hrun; subst. simpl. rewrite Hc1. repeat split; lia.
  - destruct (fetch ParseTime cfg world i 0 st) as [res st1] eqn:Hf.
    pose proof (fetch_counter _ _ _ _ _ Hf) as Hc1.
    destruct (isFailure res) eqn:Hfail.
    + cbv zeta in Hrun.
      assert (Hinc : wrap64 (consecErrors st1 + 1) = consecErrors st + 1)
        by (rewrite Hc1; apply wrap64_small; unfold min_int64; lia).
      rewrite Hinc in Hrun.
      destruct (maxErrors cfg <=? consecErrors st + 1).
      * inversion Hrun; subst. simpl. rewrite Hfail. repeat split; lia.
      * destruct (sleep cfg rnd (errorWait cfg (consecErrors st + 1) res) _)
          as [[ev st2] returned] eqn:Hsl.
        destruct (sleep_inv _ _ _ _ _ Hsl) as (out & -> & _ & _ & Hc2).
        simpl in Hc2.
        destruct returned.
        -- destruct (retryLoop ParseTime cfg world rnd (Z.to_nat (retries cfg)) 1 i st2)
             as [[trr st3] e] eqn:Hretry.
           destruct (retryLoop_counted _ _ _ _ _ _ _ Hretry) as (Hcnt & Hfin & Hor).
           rewrite Hc2 in *.
           destruct e.
           ++ destruct (politeWait cfg rnd i st3) as [[trp st4] c] eqn:Hpol.
              destruct (politeWait_counted _ _ _ _ _
                          (counterAfter (consecErrors st + 1) trr) Hpol)
                as (Hcp & Hap & Hc4).
              inversion Hrun; subst. simpl. rewrite Hfail.
              rewrite counterAfter_app, Hap, Hc4, Hfin.
              split; [split; [reflexivity|]; apply counted_app; split; assumption|].
              split; [reflexivity|]. rewrite <- Hfin. lia.
           ++ inversion Hrun; subst. simpl. rewrite Hfail.
              repeat split; try assumption; lia.
           ++ inversion Hrun; subst. simpl. rewrite Hfail.
              repeat split; try assumption; lia.
        -- inversion Hrun; subst. simpl. rewrite Hfail, Hc2. repeat split; lia.
    + cbv zeta in Hrun.
      destruct (politeWait cfg rnd i _) as [[trp st2] c] eqn:Hpol.
      destruct (politeWait_counted _ _ _ _ _ 0 Hpol) as (Hcp & Hap & Hc2).
      simpl in Hc2.
      inversion Hrun; subst. simpl. rewrite Hfail, Hap, Hc2.
      repeat split; try assumption; lia.
Qed.

Lemma loop_counted (idx : list Z) :
  forall (st st' : runState) (tr : list event) (e : ending),
    loop ParseTime cfg world rnd idx st = (tr, st', e) ->
    0 <= consecErrors st ->
    consecErrors st + Z.of_nat (length idx) <= max_int64 ->
    counted (consecErrors st) tr
    /\ consecErrors st' = counterAfter (consecErrors st) tr.
Proof.
  induction idx as [|i rest IH]; intros st st' tr e Hrun H0 Hlen; cbn [loop] in Hrun.
  - inversion Hrun; subst. simpl. tauto.
  - cbn [length] in Hlen.
    destruct (iteration ParseTime cfg world rnd i st) as [[tr1 st1] c] eqn:Hit.
    destruct (iteration_counted _ _ _ _ _ Hit) as (Hcnt1 & Hfin1 & Hrange); [lia|].
    destruct c.
    + destruct (loop ParseTime cfg world rnd rest st1) as [[tr2 st2] e2] eqn:Hrest.
      inversion Hrun; subst; clear Hrun.
      destruct (IH _ _ _ _ Hrest) as [Hcnt2 Hfin2]; [lia | lia |].
      rewrite counterAfter_app, <- Hfin1.
      split; [|exact Hfin2].
      apply counted_app. rewrite <- Hfin1. split; assumption.
    + inversion Hrun; subst. split; assumption.
    + inversion Hrun; subst. split; assumption.
Qed.

Lemma indices_length (a b : Z) : length (indices a b) = Z.to_nat (b - a + 1).
Proof. unfold indices. rewrite length_map, length_seq. reflexivity. Qed.

Lemma run_counted (fs : filesys) :
  endNum cfg - startNum cfg < max_int64 ->
  counted 0 (fst (fst (run ParseTime cfg world rnd fs)))
  /\ consecErrors (snd (fst (run ParseTime cfg world rnd fs)))
     = counterAfter 0 (fst (fst (run ParseTime cfg world rnd fs))).
Proof.
  intros Hlen. unfold run.
  destruct (loop _ _ _ _ _ _) as [[tr st'] en] eqn:Hrun. simpl.
  apply (loop_counted _ _ _ _ _ Hrun); simpl; [lia|].
  rewrite indices_length. unfold max_int64 in *. lia.
Qed.

End Traces.

(** ** The scheduler in a run *)

Lemma capWait_min_seconds (cfg : config) (w : Z) :
  capWait cfg w = Z.min w (seconds (maxWait cfg)).
Proof. unfold capWait. destruct (Z.ltb_spec (seconds (maxWait cfg)) w); lia. Qed.

Lemma errorWait_hint (cfg : config) (c : Z) (res : dlResult) :
  0 < RetryAfter res -> StatusCode res = 429 \/ StatusCode res = 503 ->
  errorWait cfg c res = capWait cfg (RetryAfter res).
Proof.
  intros Hra Hst. unfold errorWait. cbv zeta.
  apply Z.ltb_lt in Hra. rewrite Hra.
  destruct Hst as [-> | ->]; reflexivity.
Qed.

Lemma errorWait_backoff (cfg : config) (c : Z) (res : dlResult) :
  RetryAfter res <= 0 \/ (StatusCode res <> 429 /\ StatusCode res <> 503) ->
  errorWait cfg c res = capWait cfg (backoffWait cfg c).
Proof.
  intros Hres. unfold errorWait. cbv zeta.
  destruct Hres as [Hra | [H429 H503]].
  - assert ((0 <? RetryAfter res) = false) as -> by (apply Z.ltb_ge; lia).
    rewrite !andb_false_r. reflexivity.
  - apply Z.eqb_neq in H429, H503. rewrite H429, H503. reflexivity.
Qed.

Lemma retryWait_hint (cfg : config) (res : dlResult) :
  0 < RetryAfter res -> retryWait cfg res = RetryAfter res.
Proof. intros H. unfold retryWait. apply Z.ltb_lt in H. rewrite H. reflexivity. Qed.

Lemma retryWait_plain (cfg : config) (res : dlResult) :
  RetryAfter res <= 0 -> retryWait cfg res = seconds (interval cfg).
Proof.
  intros H. unfold retryWait. cbv zeta.
  assert ((0 <? RetryAfter res) = false) as -> by (apply Z.ltb_ge; lia). reflexivity.
Qed.

Lemma status_429_503_failure (res : dlResult) :
  StatusCode res = 429 \/ StatusCode res = 503 -> isFailure res = true.
Proof.
  intros H. unfold isFailure. apply orb_true_iff. right.
  destruct H as [-> | ->]; reflexivity.
Qed.

Lemma politeOrNext_sleep (cfg : config) (w : Z) (out : sleepResult) (rest : list event) :
  politeOrNext cfg (EvSleep w out :: rest) ->
  w = seconds (interval cfg) /\ startsFile rest.
Proof.
  intros [H | (out' & rest' & H & Hs)]; [destruct H|].
  inversion H; subst. split; [reflexivity | exact Hs].
Qed.

Section Scheduler.

Variable ParseTime : string -> option Z.
Variable cfg : config.
Variable world : Z -> nat -> attempt.
Variable rnd : nat -> Z.

(** The wait that follows a fetch in a run. *)
Lemma wait_after_fetch (fs : filesys) (pre post : list event) (i : Z) (k : nat)
    (res : dlResult) (c w : Z) (out : sleepResult) :
  fst (fst (run ParseTime cfg world rnd fs))
    = pre ++ EvFetch i k res c :: EvSleep w out :: post ->
  w = match k with
      | O => if isFailure res then errorWait cfg c res else seconds (interval cfg)
      | S _ => if isSuccess res then seconds (interval cfg) else retryWait cfg res
      end.
Proof.
  intros Htr. pose proof (run_rule _ _ _ _ _ _ _ _ Htr) as Hr. simpl in Hr.
  destruct k as [|k].
  - destruct (isFailure res).
    + destruct (maxErrors cfg <=? c); [discriminate|].
      destruct Hr as (out' & rest' & Heq & _). inversion Heq; subst. reflexivity.
    + destruct Hr as [_ Hr]. apply politeOrNext_sleep in Hr. tauto.
  - destruct (isSuccess res).
    + destruct Hr as [_ Hr]. apply politeOrNext_sleep in Hr. tauto.
    + destruct Hr as (_ & out' & rest' & Heq & _). inversion Heq; subst. reflexivity.
Qed.

(** C1, amended.  In a run, the wait (before jitter) that follows an
    attempt whose result carries a positive Retry-After hint is:
    after a first attempt with status 429 or 503, the hint capped at
    maxWait seconds, whatever the failure streak; after a first attempt
    that failed with another status, the capped exponential backoff, the
    hint being ignored; after a retry that failed, the hint itself,
    whatever the status code; after an attempt that did not fail, the
    plain interval, the hint being ignored. *)
Theorem retry_after_rule (fs : filesys) (pre post : list event) (i : Z) (k : nat)
    (res : dlResult) (c w : Z) (out : sleepResult) :
  fst (fst (run ParseTime cfg world rnd fs))
    = pre ++ EvFetch i k res c :: EvSleep w out :: post ->
  0 < RetryAfter res ->
  (k = O -> StatusCode res = 429 \/ StatusCode res = 503 ->
   w = Z.min (RetryAfter res) (seconds (maxWait cfg)))
  /\ (k = O -> isFailure res = true ->
      StatusCode res <> 429 -> StatusCode res <> 503 ->
      w = capWait cfg (backoffWait cfg c))
  /\ (k <> O -> isSuccess res = false -> w = RetryAfter res)
  /\ (k = O -> isFailure res = false -> w = seconds (interval cfg))
  /\ (k <> O -> isSuccess res = true -> w = seconds (interval cfg)).
Proof.
  intros Htr Hra. pose proof (wait_after_fetch _ _ _ _ _ _ _ _ _ Htr) as Hw.
  repeat split.
  - intros -> Hst. rewrite (status_429_503_failure res Hst) in Hw.
    rewrite Hw, errorWait_hint, capWait_min_seconds by assumption. reflexivity.
  - intros -> Hf H429 H503. rewrite Hf in Hw.
    rewrite Hw. apply errorWait_backoff. right. split; assumption.
  - intros Hk Hs. destruct k as [|k]; [congruence|]. rewrite Hs in Hw.
    rewrite Hw. apply retryWait_hint. exact Hra.
  - intros -> Hf. rewrite Hf in Hw. exact Hw.
  - intros Hk Hs. destruct k as [|k]; [congruence|]. rewrite Hs in Hw. exact Hw.
Qed.

(** C2.  Once a fetch leaves consecErrors at maxErrors or above (the
    counter being positive), that fetch is the first attempt for its file
    and a failure, and the run ends there: the abort is the only event
    after it, so no retry of that file and no fetch of a further file is
    issued. *)
Theorem abort_ends_run (fs : filesys) (pre post : list event) (i : Z) (k : nat)
    (res : dlResult) (c : Z) :
  fst (fst (run ParseTime cfg world rnd fs)) = pre ++ EvFetch i k res c :: post ->
  0 < c -> maxErrors cfg <= c ->
  k = O /\ isFailure res = true /\ post = [EvAbort c].
Proof.
  intros Htr Hpos Hmax. pose proof (run_rule _ _ _ _ _ _ _ _ Htr) as Hr. simpl in Hr.
  destruct k as [|k].
  - destruct (isFailure res).
    + apply Z.leb_le in Hmax. rewrite Hmax in Hr. tauto.
    + lia.
  - destruct (isSuccess res); lia.
Qed.

(** C3, amended.  In a run, consecErrors is incremented by exactly 1 by a
    first attempt that is a failure and by nothing else; it is reset to 0
    by a first attempt that is not a failure (a success or a 404) and by a
    retry that succeeds (status 200 and no error); every other retry, one
    that returns 404 included, leaves it as it was.  [counterAfter 0 pre]
    is the counter before the fetch.  The range is taken shorter than
    2^63 indices. *)
Theorem counter_rule (fs : filesys) (pre post : list event) (i : Z) (k : nat)
    (res : dlResult) (c : Z) :
  endNum cfg - startNum cfg < max_int64 ->
  fst (fst (run ParseTime cfg world rnd fs)) = pre ++ EvFetch i k res c :: post ->
  (k = O -> isFailure res = true -> c = counterAfter 0 pre + 1)
  /\ (k = O -> isFailure res = false -> c = 0)
  /\ (k <> O -> isSuccess res = true -> c = 0)
  /\ (k <> O -> isSuccess res = false -> c = counterAfter 0 pre)
  /\ consecErrors (snd (fst (run ParseTime cfg world rnd fs)))
     = counterAfter 0 (fst (fst (run ParseTime cfg world rnd fs))).
Proof.
  intros Hlen Htr.
  destruct (run_counted ParseTime cfg world rnd fs Hlen) as [Hcnt Hfin].
  pose proof (counted_split _ _ _ _ _ _ _ _ Hcnt Htr) as Hc.
  unfold nextCounter in Hc.
  repeat split; try exact Hfin.
  - intros -> Hf. rewrite Hf in Hc. exact Hc.
  - intros -> Hf. rewrite Hf in Hc. exact Hc.
  - intros Hk Hs. destruct k; [congruence|]. rewrite Hs in Hc. exact Hc.
  - intros Hk Hs. destruct k; [congruence|]. rewrite Hs in Hc. exact Hc.
Qed.

End Scheduler.

(** ** The waits of the retry loop *)

Lemma politeOrNext_not_retry (cfg : config) (i : Z) (k : nat) (res : dlResult) (c : Z)
    (rest : list event) :
  ~ politeOrNext cfg (EvFetch i (S k) res c :: rest).
Proof. intros [H | (out & rest' & H & _)]; [exact H | discriminate]. Qed.

(** Only a wait comes right before a retry. *)
Lemma before_retry (cfg : config) (e : event) (i : Z) (k : nat) (res : dlResult) (c : Z)
    (post : list event) :
  scheduleRule cfg e (EvFetch i (S k) res c :: post) ->
  exists w out, e = EvSleep w out.
Proof.
  intros Hr. destruct e as [i1|i1 k1 res1 c1|w1 out1|c1]; simpl in Hr.
  - destruct Hr as (out & rest' & H & _). discriminate.
  - exfalso. destruct k1 as [|k1].
    + destruct (isFailure res1).
      * destruct (maxErrors cfg <=? c1); [discriminate|].
        destruct Hr as (out & rest' & H & _). discriminate.
      * destruct Hr as [_ Hr]. exact (politeOrNext_not_retry _ _ _ _ _ _ Hr).
    + destruct (isSuccess res1).
      * destruct Hr as [_ Hr]. exact (politeOrNext_not_retry _ _ _ _ _ _ Hr).
      * destruct Hr as (_ & out & rest' & H & _). discriminate.
  - eauto.
  - discriminate.
Qed.

Lemma retryOrNext_retry (i i' : Z) (k k' : nat) (res : dlResult) (c : Z)
    (rest : list event) :
  retryOrNext i k (EvFetch i' (S k') res c :: rest) -> i' = i /\ S k' = k.
Proof.
  intros [H | (res' & c' & rest' & H)]; [destruct H|].
  inversion H; subst. split; reflexivity.
Qed.

(** The wait right before retry k+1 follows attempt k for the same file,
    and is the wait the scheduler derives from that attempt. *)
Lemma before_retry_wait (cfg : config) (e : event) (w : Z) (out : sleepResult) (i : Z)
    (k : nat) (res : dlResult) (c : Z) (post : list event) :
  scheduleRule cfg e (EvSleep w out :: EvFetch i (S k) res c :: post) ->
  exists res0 c0,
    e = EvFetch i k res0 c0
    /\ w = match k with
           | O => errorWait cfg c0 res0
           | S _ => retryWait cfg res0
           end.
Proof.
  intros Hr. destruct e as [i1|i1 k1 res1 c1|w1 out1|c1]; simpl in Hr.
  - exfalso. destruct Hr as (out' & rest' & H & Hs). inversion H; subst. exact Hs.
  - destruct k1 as [|k1].
    + destruct (isFailure res1).
      * destruct (maxErrors cfg <=? c1); [discriminate|].
        destruct Hr as (out' & rest' & H & Hn). inversion H; subst.
        apply retryOrNext_retry in Hn as [-> Hk]. inversion Hk; subst. eauto.
      * exfalso. destruct Hr as [_ Hr]. apply politeOrNext_sleep in Hr as [_ Hs].
        exact Hs.
    + destruct (isSuccess res1).
      * exfalso. destruct Hr as [_ Hr]. apply politeOrNext_sleep in Hr as [_ Hs].
        exact Hs.
      * destruct Hr as (_ & out' & rest' & H & Hn). inversion H; subst.
        apply retryOrNext_retry in Hn as [-> Hk]. inversion Hk; subst. eauto.
  - destruct Hr.
  - discriminate.
Qed.

Lemma snoc_cases (l : list event) : l = [] \/ exists l' e, l = l' ++ [e].
Proof.
  induction l as [|x l IH] using rev_ind; [left; reflexivity | right; eauto].
Qed.

Section RetryWaits.

Variable ParseTime : string -> option Z.
Variable cfg : config.
Variable world : Z -> nat -> attempt.
Variable rnd : nat -> Z.

(** C4, amended.  In a run, retry k+1 of a file comes right after exactly
    one wait, and that wait comes right after attempt k of the same file:
    before the first retry it is the wait computed from the failed first
    attempt (the capped hint of a 429 or 503, else the capped exponential
    backoff); before a later retry it is the positive Retry-After hint of
    the previous retry, else the plain interval.  A retry that fails is
    always followed by that wait, the last one allowed too; after it
    comes the next retry of the file, or the next file without a further
    wait, or nothing. *)
Theorem retry_wait_rule (fs : filesys) (pre post : list event) (i : Z) (k : nat)
    (res : dlResult) (c : Z) :
  fst (fst (run ParseTime cfg world rnd fs)) = pre ++ EvFetch i (S k) res c :: post ->
  (exists pre' res0 c0 out,
      pre = pre' ++ [EvFetch i k res0 c0;
                     EvSleep (match k with
                              | O => errorWait cfg c0 res0
                              | S _ => retryWait cfg res0
                              end) out])
  /\ (isSuccess res = false ->
      exists out post',
        post = EvSleep (retryWait cfg res) out :: post'
        /\ (startsFile post'
            \/ exists res' c' post'', post' = EvFetch i (S (S k)) res' c' :: post'')).
Proof.
  intros Htr. split.
  - pose proof (run_startsFile ParseTime cfg world rnd fs) as Hstart.
    destruct (snoc_cases pre) as [-> | (pre1 & e1 & ->)].
    { rewrite Htr in Hstart. destruct Hstart. }
    rewrite <- app_assoc in Htr. simpl in Htr.
    destruct (before_retry _ _ _ _ _ _ _ (run_rule _ _ _ _ _ _ _ _ Htr))
      as (w & out & ->).
    destruct (snoc_cases pre1) as [-> | (pre2 & e2 & ->)].
    { rewrite Htr in Hstart. destruct Hstart. }
    rewrite <- app_assoc in Htr. simpl in Htr.
    destruct (before_retry_wait _ _ _ _ _ _ _ _ _ (run_rule _ _ _ _ _ _ _ _ Htr))
      as (res0 & c0 & -> & ->).
    exists pre2, res0, c0, out. rewrite <- app_assoc. reflexivity.
  - intros Hs. pose proof (run_rule _ _ _ _ _ _ _ _ Htr) as Hr. simpl in Hr.
    rewrite Hs in Hr. destruct Hr as (_ & out & post' & -> & Hn).
    exists out, post'. split; [reflexivity | exact Hn].
Qed.

End RetryWaits.

(** ** Sample runs *)

(** C1 fails as stated.  A first attempt answered 500 with Retry-After 120
    is followed by the backoff wait of 12 s, not by the hint; and a first
    attempt answered 429 with Retry-After 600 is followed by a wait of
    300 s, the cap, not by the hint. *)
Lemma retry_after_hint_counterexample :
  (exists pre i k res c w out post,
      fst (fst (run sampleDates (sample 1 8 64 64)
                  (server (answer 500 "120" "") (answer 200 "" "data")) lowDraws ∅))
        = pre ++ EvFetch i k res c :: EvSleep w out :: post
      /\ StatusCode res = 500 /\ RetryAfter res = 120 * Second
      /\ w = 12 * Second /\ w <> RetryAfter res)
  /\ (exists pre i k res c w out post,
      fst (fst (run sampleDates (sample 1 8 64 64)
                  (server (answer 429 "600" "") (answer 200 "" "data")) lowDraws ∅))
        = pre ++ EvFetch i k res c :: EvSleep w out :: post
      /\ StatusCode res = 429 /\ RetryAfter res = 600 * Second
      /\ w = 300 * Second /\ w <> RetryAfter res).
Proof.
  split.
  - exists [], 64, O, (mkResult 500 120000000000 None), 1, 12000000000,
      (Slept 9000000000),
      [EvFetch 64 1 (mkResult 200 0 None) 0].
    vm_compute. repeat split; congruence.
  - exists [], 64, O, (mkResult 429 600000000000 None), 1, 300000000000,
      (Slept 225000000000),
      [EvFetch 64 1 (mkResult 200 0 None) 0].
    vm_compute. repeat split; congruence.
Qed.

Lemma retry_after_rule_witness :
  (O = O -> 429 = 429 \/ 429 = 503 ->
   120000000000 = Z.min 120000000000 (seconds (maxWait (sample 1 8 64 64))))
  /\ (1%nat <> O -> isSuccess (mkResult 500 30000000000 None) = false ->
      30000000000 = 30000000000).
Proof.
  split.
  - intros Hk Hs.
    destruct (retry_after_rule sampleDates (sample 1 8 64 64)
                (server (answer 429 "120" "") (answer 500 "30" "")) lowDraws ∅
                [] [EvFetch 64 1 (mkResult 500 30000000000 None) 1;
                    EvSleep 30000000000 (Slept 22500000000)]
                64 O (mkResult 429 120000000000 None) 1 120000000000
                (Slept 90000000000)) as (H & _ & _).
    + vm_compute. reflexivity.
    + simpl. lia.
    + apply H; [exact Hk | left; reflexivity].
  - intros Hk Hs.
    destruct (retry_after_rule sampleDates (sample 1 8 64 64)
                (server (answer 429 "120" "") (answer 500 "30" "")) lowDraws ∅
                [EvFetch 64 0 (mkResult 429 120000000000 None) 1;
                 EvSleep 120000000000 (Slept 90000000000)] []
                64 1%nat (mkResult 500 30000000000 None) 1 30000000000
                (Slept 22500000000)) as (_ & _ & H & _).
    + vm_compute. reflexivity.
    + simpl. lia.
    + apply H; [exact Hk | exact Hs].
Defined.

Lemma abort_ends_run_witness :
  O = O /\ isFailure (mkResult 500 0 None) = true /\ [EvAbort 2] = [EvAbort 2].
Proof.
  apply (abort_ends_run sampleDates (sample 0 2 64 66)
           (server (answer 500 "" "") (answer 500 "" "")) lowDraws ∅
           [EvFetch 64 0 (mkResult 500 0 None) 1;
            EvSleep 12000000000 (Slept 9000000000)]
           [EvAbort 2] 65 O (mkResult 500 0 None) 2).
  - vm_compute. reflexivity.
  - lia.
  - simpl. lia.
Defined.

(** C3 fails as stated.  With one retry allowed, a first attempt answered
    500 and its retry answered 404: the retry is not a failure, and yet
    consecErrors stays 1 after it. *)
Lemma counter_reset_counterexample :
  exists pre i k res c post,
    fst (fst (run sampleDates (sample 1 8 64 65)
                (server (answer 500 "" "") (answer 404 "" "")) lowDraws ∅))
      = pre ++ EvFetch i k res c :: post
    /\ k = 1%nat /\ StatusCode res = 404 /\ isFailure res = false /\ c = 1 /\ c <> 0.
Proof.
  exists [EvFetch 64 0 (mkResult 500 0 None) 1; EvSleep 12000000000 (Slept 9000000000)],
    64, 1%nat, (mkResult 404 0 None), 1,
    [EvSleep 6000000000 (Slept 4500000000);
     EvFetch 65 0 (mkResult 500 0 None) 2;
     EvSleep 24000000000 (Slept 18000000000);
     EvFetch 65 1 (mkResult 404 0 None) 2;
     EvSleep 6000000000 (Slept 4500000000)].
  vm_compute. repeat split; congruence.
Qed.

Lemma counter_rule_witness :
  (O = O -> isFailure (mkResult 500 0 None) = true ->
   2 = counterAfter 0 [EvFetch 64 0 (mkResult 500 0 None) 1;
                       EvSleep 12000000000 (Slept 9000000000);
                       EvFetch 64 1 (mkResult 404 0 None) 1;
                       EvSleep 6000000000 (Slept 4500000000)] + 1)
  /\ consecErrors
       (snd (fst (run sampleDates (sample 1 8 64 65)
                    (server (answer 500 "" "") (answer 404 "" "")) lowDraws ∅)))
     = counterAfter 0
         (fst (fst (run sampleDates (sample 1 8 64 65)
                      (server (answer 500 "" "") (answer 404 "" "")) lowDraws ∅))).
Proof.
  destruct (counter_rule sampleDates (sample 1 8 64 65)
              (server (answer 500 "" "") (answer 404 "" "")) lowDraws ∅
              [EvFetch 64 0 (mkResult 500 0 None) 1;
               EvSleep 12000000000 (Slept 9000000000);
               EvFetch 64 1 (mkResult 404 0 None) 1;
               EvSleep 6000000000 (Slept 4500000000)]
              [EvSleep 24000000000 (Slept 18000000000);
               EvFetch 65 1 (mkResult 404 0 None) 2;
               EvSleep 6000000000 (Slept 4500000000)]
              65 O (mkResult 500 0 None) 2) as (H & _ & _ & _ & Hfin).
  - vm_compute. reflexivity.
  - vm_compute. reflexivity.
  - split; [exact H | exact Hfin].
Defined.

(** C4 fails as stated.  With one retry allowed and a server that always
    answers 500 without a hint, the run for one file fetches, waits 12 s,
    retries, and waits 6 s: the wait before the retry is the exponential
    backoff, not the plain interval of 6 s, and a second wait follows the
    last retry, so there are two waits for one retry. *)
Lemma retry_waits_counterexample :
  fst (fst (run sampleDates (sample 1 8 64 64)
              (server (answer 500 "" "") (answer 500 "" "")) lowDraws ∅))
    = [EvFetch 64 0 (mkResult 500 0 None) 1;
       EvSleep (12 * Second) (Slept 9000000000);
       EvFetch 64 1 (mkResult 500 0 None) 1;
       EvSleep (6 * Second) (Slept 4500000000)]
  /\ retries (sample 1 8 64 64) = 1
  /\ retryWait (sample 1 8 64 64) (mkResult 500 0 None) = 6 * Second
  /\ 12 * Second <> retryWait (sample 1 8 64 64) (mkResult 500 0 None).
Proof. vm_compute. repeat split; congruence. Qed.

Lemma retry_wait_rule_witness :
  (exists pre' res0 c0 out,
      [EvFetch 64 0 (mkResult 500 0 None) 1; EvSleep 12000000000 (Slept 9000000000)]
      = pre' ++ [EvFetch 64 0 res0 c0;
                 EvSleep (errorWait (sample 1 8 64 64) c0 res0) out])
  /\ (isSuccess (mkResult 500 0 None) = false ->
      exists out post',
        [EvSleep 6000000000 (Slept 4500000000)]
        = EvSleep (retryWait (sample 1 8 64 64) (mkResult 500 0 None)) out :: post'
        /\ (startsFile post'
            \/ exists res' c' post'', post' = EvFetch 64 2 res' c' :: post'')).
Proof.
  apply (retry_wait_rule sampleDates (sample 1 8 64 64)
           (server (answer 500 "" "") (answer 500 "" "")) lowDraws ∅
           [EvFetch 64 0 (mkResult 500 0 None) 1; EvSleep 12000000000 (Slept 9000000000)]
           [EvSleep 6000000000 (Slept 4500000000)]
           64 O (mkResult 500 0 None) 1).
  vm_compute. reflexivity.
Defined.


(** The scenarios of the specification. *)

Example scenario_all_ok :
  let '(tr, st, e) := run sampleDates (scenario 6 1 300 8 64 66)
                        (server (answer 200 "" "data") (answer 200 "" "data"))
                        lowDraws ∅ in
  tr = [EvFetch 64 0 (mkResult 200 0 None) 0; EvSleep (6 * Second) (Slept (6 * Second));
        EvFetch 65 0 (mkResult 200 0 None) 0; EvSleep (6 * Second) (Slept (6 * Second));
        EvFetch 66 0 (mkResult 200 0 None) 0]
  /\ files st !! "path/0064.png" = Some "data"
  /\ files st !! "path/0065.png" = Some "data"
  /\ files st !! "path/0066.png" = Some "data"
  /\ files st !! "path/0066.png.part" = None
  /\ e = Done.
Proof. vm_compute. repeat split; reflexivity. Qed.

Example scenario_retry_after_10 :
  let '(tr, st, e) := run sampleDates (scenario 6 1 300 8 64 66) busyAt65 lowDraws ∅ in
  tr = [EvFetch 64 0 (mkResult 200 0 None) 0; EvSleep (6 * Second) (Slept (6 * Second));
        EvFetch 65 0 (mkResult 429 (10 * Second) None) 1;
        EvSleep (10 * Second) (Slept (10 * Second));
        EvFetch 65 1 (mkResult 200 0 None) 0; EvSleep (6 * Second) (Slept (6 * Second));
        EvFetch 66 0 (mkResult 200 0 None) 0]
  /\ consecErrors st = 0
  /\ e = Done.
Proof. vm_compute. repeat split; reflexivity. Qed.

Example scenario_abort_after_4 :
  let '(tr, st, e) := run sampleDates (scenario 6 0 60 4 64 68)
                        (server (answer 503 "" "") (answer 503 "" ""))
                        lowDraws ∅ in
  tr = [EvFetch 64 0 (mkResult 503 0 None) 1; EvSleep (12 * Second) (Slept (12 * Second));
        EvFetch 65 0 (mkResult 503 0 None) 2; EvSleep (24 * Second) (Slept (24 * Second));
        EvFetch 66 0 (mkResult 503 0 None) 3; EvSleep (48 * Second) (Slept (48 * Second));
        EvFetch 67 0 (mkResult 503 0 None) 4; EvAbort 4]
  /\ errorWait (scenario 6 0 60 4 64 68) 4 (mkResult 503 0 None) = 60 * Second
  /\ e = Aborted.
Proof. vm_compute. repeat split; reflexivity. Qed.

(** A second run over the files of a first one fetches nothing. *)
Example scenario_second_run_skips :
  let '(_, st, _) := run sampleDates (scenario 6 1 300 8 64 65)
                       (server (answer 200 "" "data") (answer 200 "" "data"))
                       lowDraws ∅ in
  fst (fst (run sampleDates (scenario 6 1 300 8 64 65)
              (server (answer 200 "" "data") (answer 200 "" "data"))
              lowDraws (files st)))
  = [EvSkip 64; EvSleep (6 * Second) (Slept (6 * Second));
     EvSkip 65; EvSleep (6 * Second) (Slept (6 * Second))].
Proof. vm_compute. reflexivity. Qed.

(** ** Results without a hint *)

Lemma waits_without_hint (cfg : config) (c : Z) (res : dlResult) :
  RetryAfter res = 0 ->
  errorWait cfg c res = capWait cfg (backoffWait cfg c)
  /\ retryWait cfg res = seconds (interval cfg).
Proof.
  intros H. split.
  - apply errorWait_backoff. left. lia.
  - apply retryWait_plain. lia.
Qed.

(** C10.  When the request cannot be built or no response arrives,
    downloadFile returns the error with status 0 and no Retry-After hint,
    and touches no file; the result is a failure, and in a run the wait
    that follows it is the capped exponential backoff after a first
    attempt and the plain interval after a retry. *)
Theorem early_error_has_no_hint (ParseTime : string -> option Z) (a : attempt)
    (file e : string) :
  reply a = RequestError e \/ reply a = TransportError e ->
  downloadFile ParseTime a file = (mkResult 0 0 (Some e), [])
  /\ isFailure (mkResult 0 0 (Some e)) = true
  /\ (forall (cfg : config) (c : Z),
        errorWait cfg c (mkResult 0 0 (Some e)) = capWait cfg (backoffWait cfg c)
        /\ retryWait cfg (mkResult 0 0 (Some e)) = seconds (interval cfg))
  /\ (forall (cfg : config) (world : Z -> nat -> attempt) (rnd : nat -> Z)
             (fs : filesys) (pre post : list event) (i : Z) (k : nat) (c w : Z)
             (out : sleepResult),
        fst (fst (run ParseTime cfg world rnd fs))
          = pre ++ EvFetch i k (mkResult 0 0 (Some e)) c :: EvSleep w out :: post ->
        w = match k with
            | O => capWait cfg (backoffWait cfg c)
            | S _ => seconds (interval cfg)
            end).
Proof.
  intros Hr.
  split; [unfold downloadFile; destruct Hr as [-> | ->]; reflexivity|].
  split; [reflexivity|].
  split; [intros cfg c; apply waits_without_hint; reflexivity|].
  intros cfg world rnd fs pre post i k c w out Htr.
  rewrite (wait_after_fetch _ _ _ _ _ _ _ _ _ _ _ _ _ Htr).
  assert (Hf : isFailure (mkResult 0 0 (Some e)) = true) by reflexivity.
  assert (Hs : isSuccess (mkResult 0 0 (Some e)) = false) by reflexivity.
  destruct k.
  - rewrite Hf. apply (proj1 (waits_without_hint cfg c (mkResult 0 0 (Some e)) eq_refl)).
  - rewrite Hs. apply (proj2 (waits_without_hint cfg c (mkResult 0 0 (Some e)) eq_refl)).
Qed.

Lemma early_error_has_no_hint_witness :
  downloadFile sampleDates (mkAttempt (TransportError "timeout") 1000 noFaults)
      "path/0064.png"
    = (mkResult 0 0 (Some "timeout"), [])
  /\ isFailure (mkResult 0 0 (Some "timeout")) = true.
Proof.
  destruct (early_error_has_no_hint sampleDates
              (mkAttempt (TransportError "timeout") 1000 noFaults)
              "path/0064.png" "timeout") as (H1 & H2 & _).
  - right. reflexivity.
  - split; [exact H1 | exact H2].
Defined.

(** ** A hint of zero *)

Lemma parseRetryAfter_zero_text (ParseTime : string -> option Z) (clk : Z) :
  parseRetryAfter ParseTime clk "0" = (0, true).
Proof. reflexivity. Qed.

Lemma parseRetryAfter_past_date (ParseTime : string -> option Z) (clk t : Z) (v : string) :
  Atoi (TrimSpace v) = None -> ParseTime v = Some t -> t <= clk ->
  parseRetryAfter ParseTime clk v = (0, true).
Proof.
  intros Ha Hp Ht. unfold parseRetryAfter. rewrite Ha, Hp. cbv zeta.
  unfold Until, clamp64.
  destruct (Z.ltb_spec (t - clk) min_int64).
  - reflexivity.
  - destruct (Z.ltb_spec max_int64 (t - clk)); [unfold max_int64 in *; lia|].
    destruct (Z.ltb_spec (t - clk) 0); [reflexivity|].
    f_equal. lia.
Qed.

Lemma downloadFile_zero_hint (ParseTime : string -> option Z) (status clk : Z)
    (ra body : string) (faults : diskFaults) (file : string) :
  parseRetryAfter ParseTime clk ra = (0, true) ->
  downloadFile ParseTime (mkAttempt (Response status ra body) clk faults) file
  = downloadFile ParseTime (mkAttempt (Response status EmptyString body) clk faults) file.
Proof.
  intros Hp. unfold downloadFile. simpl. rewrite Hp.
  destruct (String.eqb ra EmptyString); reflexivity.
Qed.

Lemma downloadFile_dropZeroHint (ParseTime : string -> option Z) (a : attempt)
    (file : string) :
  downloadFile ParseTime (dropZeroHint ParseTime a) file = downloadFile ParseTime a file.
Proof.
  unfold dropZeroHint. destruct a as [r clk d]. simpl.
  destruct r as [e|e|status ra body]; try reflexivity.
  destruct (parseRetryAfter ParseTime clk ra) as [dur ok] eqn:Hp.
  destruct dur; try reflexivity. destruct ok; try reflexivity.
  symmetry. apply downloadFile_zero_hint. exact Hp.
Qed.

Section SameAnswers.

Variable ParseTime : string -> option Z.
Variable cfg : config.
Variables world world' : Z -> nat -> attempt.
Variable rnd : nat -> Z.

Hypothesis same_answers :
  forall (i : Z) (k : nat) (file : string),
    downloadFile ParseTime (world i k) file = downloadFile ParseTime (world' i k) file.

Lemma fetch_ext (i : Z) (k : nat) (st : runState) :
  fetch ParseTime cfg world i k st = fetch ParseTime cfg world' i k st.
Proof. unfold fetch. rewrite same_answers. reflexivity. Qed.

Lemma retryLoop_ext (n : nat) :
  forall (k : nat) (i : Z) (st : runState),
    retryLoop ParseTime cfg world rnd n k i st
    = retryLoop ParseTime cfg world' rnd n k i st.
Proof.
  induction n as [|n IH]; intros k i st; cbn [retryLoop]; [reflexivity|].
  rewrite fetch_ext. destruct (fetch ParseTime cfg world' i k st) as [res st1].
  destruct (isSuccess res); [reflexivity|].
  destruct (sleep cfg rnd (retryWait cfg res) st1) as [[ev st2] returned].
  destruct returned; [|reflexivity]. rewrite IH. reflexivity.
Qed.

Lemma iteration_ext (i : Z) (st : runState) :
  iteration ParseTime cfg world rnd i st = iteration ParseTime cfg world' rnd i st.
Proof.
  unfold iteration. rewrite fetch_ext.
  destruct (bool_decide _); [reflexivity|].
  destruct (fetch ParseTime cfg world' i 0 st) as [res st1].
  destruct (isFailure res); [|reflexivity].
  cbv zeta. destruct (maxErrors cfg <=? _); [reflexivity|].
  destruct (sleep cfg rnd _ _) as [[ev st2] returned].
  destruct returned; [|reflexivity]. rewrite retryLoop_ext. reflexivity.
Qed.

Lemma loop_ext (idx : list Z) :
  forall st : runState,
    loop ParseTime cfg world rnd idx st = loop ParseTime cfg world' rnd idx st.
Proof.
  induction idx as [|i rest IH]; intros st; cbn [loop]; [reflexivity|].
  rewrite iteration_ext.
  destruct (iteration ParseTime cfg world' rnd i st) as [[tr st1] c].
  destruct c; try reflexivity. rewrite IH. reflexivity.
Qed.

Lemma run_ext (fs : filesys) :
  run ParseTime cfg world rnd fs = run ParseTime cfg world' rnd fs.
Proof. unfold run. apply loop_ext. Qed.

End SameAnswers.

(** C9.  A Retry-After header that parses to a wait of zero (the text
    "0", or an HTTP-date that is not in the future) is handled like an
    absent header: downloadFile returns the same result, with a hint of
    0; for such a result the wait after a first failure is the capped
    exponential backoff and the wait after a failed retry is the plain
    interval; and a whole run is the same as with a server that leaves
    those headers out. *)
Theorem zero_hint_is_no_hint (ParseTime : string -> option Z) (clk : Z) :
  parseRetryAfter ParseTime clk "0" = (0, true)
  /\ (forall (v : string) (t : Z),
        Atoi (TrimSpace v) = None -> ParseTime v = Some t -> t <= clk ->
        parseRetryAfter ParseTime clk v = (0, true))
  /\ (forall (status : Z) (ra body : string) (faults : diskFaults) (file : string),
        parseRetryAfter ParseTime clk ra = (0, true) ->
        downloadFile ParseTime (mkAttempt (Response status ra body) clk faults) file
        = downloadFile ParseTime
            (mkAttempt (Response status EmptyString body) clk faults) file
        /\ RetryAfter
             (fst (downloadFile ParseTime
                     (mkAttempt (Response status ra body) clk faults) file)) = 0)
  /\ (forall (res : dlResult) (cfg : config) (c : Z),
        RetryAfter res = 0 ->
        errorWait cfg c res = capWait cfg (backoffWait cfg c)
        /\ retryWait cfg res = seconds (interval cfg))
  /\ (forall (cfg : config) (world : Z -> nat -> attempt) (rnd : nat -> Z)
             (fs : filesys),
        run ParseTime cfg (fun i k => dropZeroHint ParseTime (world i k)) rnd fs
        = run ParseTime cfg world rnd fs).
Proof.
  split; [apply parseRetryAfter_zero_text|].
  split; [intros v t; apply parseRetryAfter_past_date|].
  split.
  { intros status ra body faults file Hp.
    split; [apply downloadFile_zero_hint; exact Hp|].
    unfold downloadFile. simpl. rewrite Hp.
    destruct (String.eqb ra EmptyString), (negb (status =? 200)); try reflexivity;
      destruct (createErr faults); try reflexivity;
      destruct (copyErr faults) as [[n e]|]; try reflexivity;
      destruct (closeErr faults); try reflexivity;
      destruct (renameErr faults); reflexivity. }
  split; [intros res cfg c; apply waits_without_hint|].
  intros cfg world rnd fs. apply run_ext.
  intros i k file. apply downloadFile_dropZeroHint.
Qed.

Lemma zero_hint_is_no_hint_witness :
  parseRetryAfter sampleDates 1000 "Thu, 01 Jan 1970 00:00:00 GMT" = (0, true)
  /\ downloadFile sampleDates
       (mkAttempt (Response 503 "Thu, 01 Jan 1970 00:00:00 GMT" "") 1000 noFaults)
       "path/0064.png"
     = downloadFile sampleDates (mkAttempt (Response 503 "" "") 1000 noFaults)
         "path/0064.png".
Proof.
  destruct (zero_hint_is_no_hint sampleDates 1000) as (_ & Hdate & Hdl & _).
  assert (Hp : parseRetryAfter sampleDates 1000 "Thu, 01 Jan 1970 00:00:00 GMT"
               = (0, true)).
  { apply (Hdate "Thu, 01 Jan 1970 00:00:00 GMT" 0);
      [vm_compute; reflexivity | vm_compute; reflexivity | lia]. }
  split; [exact Hp|].
  apply (Hdl 503 "Thu, 01 Jan 1970 00:00:00 GMT" "" noFaults "path/0064.png" Hp).
Defined.

(** ** The file at the destination path *)

Lemma length_append (s t : string) :
  String.length (s +:+ t) = (String.length s + String.length t)%nat.
Proof. induction s as [|c s IH]; simpl; [reflexivity | rewrite IH; reflexivity]. Qed.

Lemma part_ne (file : string) : file +:+ ".part" <> file.
Proof.
  intros H. apply (f_equal String.length) in H. rewrite length_append in H.
  simpl in H. lia.
Qed.

Lemma applyOp_elsewhere (fs : filesys) (op : fsOp) (file : string) :
  match op with
  | OpRename _ _ => False
  | OpCreate p | OpWrite p _ | OpClose p => p <> file
  end ->
  applyOp fs op !! file = fs !! file.
Proof.
  destruct op as [p|p data|p|src dst]; simpl; intros H.
  - apply lookup_insert_ne. exact H.
  - destruct (fs !! p); [apply lookup_insert_ne; exact H | reflexivity].
  - reflexivity.
  - destruct H.
Qed.

Lemma applyOps_elsewhere (ops : list fsOp) (file : string) :
  forall fs : filesys,
    (forall op, In op ops ->
       match op with
       | OpRename _ _ => False
       | OpCreate p | OpWrite p _ | OpClose p => p <> file
       end) ->
    applyOps fs ops !! file = fs !! file.
Proof.
  unfold applyOps. induction ops as [|op ops IH]; intros fs H; simpl; [reflexivity|].
  rewrite IH by (intros op' Hin; apply H; right; exact Hin).
  apply applyOp_elsewhere. apply H. left. reflexivity.
Qed.

(** The temporary file holds the whole body once it is written. *)
Lemma staged_body (fs : filesys) (tmp body : string) :
  applyOps fs [OpCreate tmp; OpWrite tmp body; OpClose tmp] !! tmp = Some body.
Proof.
  unfold applyOps. simpl. rewrite lookup_insert_eq. simpl. apply lookup_insert_eq.
Qed.

Lemma published_body (fs : filesys) (file body : string) :
  applyOps fs [OpCreate (file +:+ ".part"); OpWrite (file +:+ ".part") body;
               OpClose (file +:+ ".part"); OpRename (file +:+ ".part") file] !! file
  = Some body.
Proof.
  change (applyOp (applyOps fs [OpCreate (file +:+ ".part");
                                OpWrite (file +:+ ".part") body;
                                OpClose (file +:+ ".part")])
            (OpRename (file +:+ ".part") file) !! file = Some body).
  unfold applyOp at 1. rewrite staged_body. apply lookup_insert_eq.
Qed.

(** The operations before the rename leave every other path as it is. *)
Lemma staging_elsewhere (fs : filesys) (file data : string) (done rest : list fsOp) :
  [OpCreate (file +:+ ".part"); OpWrite (file +:+ ".part") data;
   OpClose (file +:+ ".part")] = done ++ rest ->
  applyOps fs done !! file = fs !! file.
Proof.
  intros H. apply applyOps_elsewhere. intros op Hin.
  assert (Hall : In op [OpCreate (file +:+ ".part"); OpWrite (file +:+ ".part") data;
                        OpClose (file +:+ ".part")])
    by (rewrite H; apply in_or_app; left; exact Hin).
  simpl in Hall. destruct Hall as [<- | [<- | [<- | []]]]; apply part_ne.
Qed.



(** ** Labels *)

Lemma digitVal_char (d : N) : (d < 10)%N -> digitVal (pretty_N_char d) = Z.of_N d.
Proof.
  intros H.
  assert (d = 0 \/ d = 1 \/ d = 2 \/ d = 3 \/ d = 4 \/ d = 5 \/ d = 6 \/ d = 7
          \/ d = 8 \/ d = 9)%N as Hd by lia.
  repeat (destruct Hd as [-> | Hd]; [reflexivity|]). subst. reflexivity.
Qed.

Lemma isDigit_char (d : N) : isDigit (pretty_N_char d) = true.
Proof.
  unfold pretty_N_char. destruct d as [|p]; [reflexivity|].
  do 4 (destruct p as [p|p|]; try reflexivity).
Qed.

Lemma toDecLoop_pretty (x : N) :
  Z.of_N x <= max_int64 ->
  forall s : string, toDecLoop 0 (pretty_N_go x s) = toDecLoop (Z.of_N x) s.
Proof.
  induction (N.lt_wf_0 x) as [x _ IH]. intros Hx s.
  destruct (N.eq_dec x 0%N) as [-> | Hne]; [reflexivity|].
  rewrite pretty_N_go_step by lia.
  assert (Hdiv : (x `div` 10 < x)%N) by (apply N.div_lt; lia).
  rewrite IH by (try exact Hdiv; lia).
  cbn [toDecLoop]. f_equal.
  rewrite digitVal_char by (apply N.mod_lt; lia).
  pose proof (N.div_mod x 10%N ltac:(lia)) as Hdm.
  pose proof (N.mod_lt x 10%N ltac:(lia)) as Hm.
  apply (f_equal Z.of_N) in Hdm. rewrite N2Z.inj_add, N2Z.inj_mul in Hdm.
  apply N2Z.inj_lt in Hm.
  pose proof (N2Z.is_nonneg (x `div` 10)%N) as Hq.
  pose proof (N2Z.is_nonneg (x `mod` 10)%N) as Hr.
  set (q := Z.of_N (x `div` 10)%N) in *. set (r := Z.of_N (x `mod` 10)%N) in *.
  change (Z.of_N 10) with 10 in *.
  unfold max_int64 in Hx.
  rewrite (wrap64_small (q * 10)) by (unfold min_int64, max_int64; lia).
  rewrite wrap64_small by (unfold min_int64, max_int64; lia).
  lia.
Qed.

Lemma isAllDigits_pretty (x : N) :
  forall s : string, isAllDigits (pretty_N_go x s) = isAllDigits s.
Proof.
  induction (N.lt_wf_0 x) as [x _ IH]. intros s.
  destruct (N.eq_dec x 0%N) as [-> | Hne]; [reflexivity|].
  rewrite pretty_N_go_step by lia.
  rewrite IH by (apply N.div_lt; lia).
  cbn [isAllDigits]. rewrite isDigit_char. reflexivity.
Qed.

(** The number of digits of [x] is the [L] with 10^(L-1) <= x < 10^L. *)
Lemma length_pretty_go (x : N) :
  forall s : string,
    exists L : nat,
      String.length (pretty_N_go x s) = (String.length s + L)%nat
      /\ (x = 0%N -> L = O)
      /\ ((0 < x)%N -> (1 <= L)%nat
          /\ 10 ^ (Z.of_nat L - 1) <= Z.of_N x < 10 ^ Z.of_nat L).
Proof.
  induction (N.lt_wf_0 x) as [x _ IH]. intros s.
  destruct (N.eq_dec x 0%N) as [-> | Hne].
  { exists O. rewrite pretty_N_go_0. repeat split; try lia. }
  rewrite pretty_N_go_step by lia.
  destruct (IH (x `div` 10)%N ltac:(apply N.div_lt; lia)
              (String (pretty_N_char (x `mod` 10)) s)) as (L & Hlen & H0 & Hpos).
  exists (S L). cbn [String.length] in Hlen.
  split; [lia|]. split; [lia|]. intros _. split; [lia|].
  pose proof (N.div_mod x 10%N ltac:(lia)) as Hdm.
  pose proof (N.mod_lt x 10%N ltac:(lia)) as Hm.
  apply (f_equal Z.of_N) in Hdm. rewrite N2Z.inj_add, N2Z.inj_mul in Hdm.
  apply N2Z.inj_lt in Hm.
  pose proof (N2Z.is_nonneg (x `div` 10)%N) as Hq.
  pose proof (N2Z.is_nonneg (x `mod` 10)%N) as Hr.
  assert (Hq0 : (x `div` 10)%N = 0%N <-> Z.of_N (x `div` 10)%N = 0) by lia.
  set (q := Z.of_N (x `div` 10)%N) in *. set (r := Z.of_N (x `mod` 10)%N) in *.
  change (Z.of_N 10) with 10 in *.
  replace (Z.of_nat (S L) - 1) with (Z.of_nat L) by lia.
  replace (Z.of_nat (S L)) with (Z.of_nat L + 1) by lia.
  rewrite Z.pow_add_r by lia. change (10 ^ 1) with 10.
  destruct (N.eq_dec (x `div` 10)%N 0%N) as [Hz | Hnz].
  - rewrite (H0 Hz). simpl. lia.
  - destruct (Hpos ltac:(lia)) as (HL & Hlo & Hhi).
    replace (Z.of_nat L) with ((Z.of_nat L - 1) + 1) at 1 by lia.
    rewrite Z.pow_add_r by lia. change (10 ^ 1) with 10. lia.
Qed.

Lemma length_pretty (x : N) (p : nat) :
  (1 <= p)%nat ->
  ((String.length (pretty x) <= p)%nat <-> Z.of_N x < 10 ^ Z.of_nat p).
Proof.
  intros Hp. unfold pretty, pretty_N.
  destruct (decide (x = 0%N)) as [-> | Hne].
  - simpl. split; [intros _; apply Z.pow_pos_nonneg; lia | lia].
  - destruct (length_pretty_go x EmptyString) as (L & Hlen & _ & Hpos).
    destruct (Hpos ltac:(lia)) as (HL & Hlo & Hhi).
    rewrite Hlen. cbn [String.length]. split; intros H.
    + eapply Z.lt_le_trans; [exact Hhi|]. apply Z.pow_le_mono_r; lia.
    + destruct (Nat.le_gt_cases L p) as [Hle | Hgt]; [lia|]. exfalso.
      assert (10 ^ Z.of_nat p <= 10 ^ (Z.of_nat L - 1))
        by (apply Z.pow_le_mono_r; lia).
      lia.
Qed.

Lemma toDec_loop (s : string) : toDec s = toDecLoop 0 s.
Proof.
  unfold toDec.
  assert (H : toDecLoop 0 (skipZeros s) = toDecLoop 0 s).
  { induction s as [|c s IH]; [reflexivity|].
    cbn [skipZeros].
    destruct (Ascii.ascii_dec c "0") as [-> | Hc].
    - rewrite IH. reflexivity.
    - destruct c as [[] [] [] [] [] [] [] []]; try reflexivity. congruence. }
  rewrite <- H. destruct (skipZeros s); reflexivity.
Qed.

Lemma toDecLoop_zeros (k : nat) (s : string) :
  toDecLoop 0 (zeros k +:+ s) = toDecLoop 0 s.
Proof. induction k as [|k IH]; [reflexivity | exact IH]. Qed.

Lemma isAllDigits_zeros (k : nat) (s : string) :
  isAllDigits (zeros k +:+ s) = isAllDigits s.
Proof. induction k as [|k IH]; [reflexivity | exact IH]. Qed.

Lemma length_zeros (k : nat) : String.length (zeros k) = k.
Proof. induction k as [|k IH]; simpl; [reflexivity | rewrite IH; reflexivity]. Qed.

Lemma length_zeroPad (w : nat) (d : string) :
  String.length (zeroPad w d) = Nat.max w (String.length d).
Proof. unfold zeroPad. rewrite length_append, length_zeros. lia. Qed.

(** The label of a non-negative index. *)
Lemma label_facts (p : nat) (i : Z) :
  0 <= i <= max_int64 -> (1 <= p)%nat ->
  isAllDigits (Sprintf_0d p i) = true
  /\ toDec (Sprintf_0d p i) = i
  /\ String.length (Sprintf_0d p i) = Nat.max p (String.length (pretty (Z.to_N i)))
  /\ (i < 10 ^ Z.of_nat p -> String.length (Sprintf_0d p i) = p)
  /\ (10 ^ Z.of_nat p <= i -> (p < String.length (Sprintf_0d p i))%nat).
Proof.
  intros Hi Hp.
  assert (Hfmt : Sprintf_0d p i = zeroPad p (pretty (Z.to_N i)))
    by (destruct i; [reflexivity | reflexivity | lia]).
  rewrite Hfmt. pose proof (length_pretty (Z.to_N i) p Hp) as Hlen.
  rewrite Z2N.id in Hlen by lia.
  assert (Hval : toDecLoop 0 (pretty (Z.to_N i)) = i
                 /\ isAllDigits (pretty (Z.to_N i)) = true).
  { unfold pretty, pretty_N. destruct (decide (Z.to_N i = 0%N)) as [H0 | Hne].
    - assert (i = 0) as -> by lia. split; reflexivity.
    - rewrite toDecLoop_pretty by (rewrite Z2N.id; lia).
      rewrite isAllDigits_pretty. simpl. split; [apply Z2N.id; lia | reflexivity]. }
  destruct Hval as [Hval Hdig].
  split; [unfold zeroPad; rewrite isAllDigits_zeros; exact Hdig|].
  split; [rewrite toDec_loop; unfold zeroPad; rewrite toDecLoop_zeros; exact Hval|].
  rewrite length_zeroPad.
  split; [reflexivity|]. split; intros H.
  - apply Hlen in H. lia.
  - assert (~ (String.length (pretty (Z.to_N i)) <= p)%nat) by (rewrite Hlen; lia). lia.
Qed.






(** * Further properties of the code *)

(** ** toDec and the digits of a label *)

Lemma wrap64_range (z : Z) : min_int64 <= wrap64 z <= max_int64.
Proof.
  unfold wrap64, min_int64, max_int64.
  pose proof (Z.mod_pos_bound (z + 2 ^ 63) (2 ^ 64) ltac:(lia)). lia.
Qed.

(** Reduction to 64 bits commutes with one step of a digit loop. *)
Lemma wrap64_step (a m d : Z) : wrap64 (wrap64 a * m + d) = wrap64 (a * m + d).
Proof.
  unfold wrap64. f_equal.
  rewrite (Z.mod_eq (a + 2 ^ 63) (2 ^ 64)) by lia.
  replace ((a + 2 ^ 63 - 2 ^ 64 * ((a + 2 ^ 63) / 2 ^ 64) - 2 ^ 63) * m + d + 2 ^ 63)
    with (a * m + d + 2 ^ 63 + (- ((a + 2 ^ 63) / 2 ^ 64) * m) * 2 ^ 64) by ring.
  apply Z_mod_plus_full.
Qed.

Lemma wrap64_add (a d : Z) : wrap64 (wrap64 a + d) = wrap64 (a + d).
Proof.
  pose proof (wrap64_step a 1 d) as H.
  replace (wrap64 a * 1) with (wrap64 a) in H by lia.
  replace (a * 1) with a in H by lia. exact H.
Qed.

Lemma isDigit_val (c : ascii) :
  isDigit c = true -> digitVal c = byteVal c - 48 /\ 0 <= byteVal c - 48 <= 9.
Proof.
  unfold isDigit, digitVal. intros H. apply andb_true_iff in H as [H1 H2].
  apply Z.leb_le in H1, H2. split; [apply Z.mod_small|]; lia.
Qed.

(** The number a string of digits denotes. *)
Lemma parseDigits_value (s : string) :
  isAllDigits s = true ->
  exists v, 0 <= v < 10 ^ Z.of_nat (String.length s)
    /\ forall a, parseDigits a s = Some (a * 10 ^ Z.of_nat (String.length s) + v).
Proof.
  induction s as [|c s IH]; cbn [isAllDigits parseDigits String.length]; intros H.
  - exists 0. split; [simpl; lia | intros a; f_equal; simpl; lia].
  - apply andb_true_iff in H as [Hc Hs].
    destruct (IH Hs) as (v & Hv & Hp).
    destruct (isDigit_val c Hc) as [_ Hd].
    exists ((byteVal c - 48) * 10 ^ Z.of_nat (String.length s) + v).
    rewrite Nat2Z.inj_succ, Z.pow_succ_r by lia.
    split; [nia|]. intros a. rewrite Hc, Hp. f_equal. ring.
Qed.

Lemma toDecLoop_parseDigits (s : string) :
  forall a r : Z,
    isAllDigits s = true -> parseDigits a s = Some r ->
    toDecLoop (wrap64 a) s = wrap64 r.
Proof.
  induction s as [|c s IH]; cbn [isAllDigits parseDigits toDecLoop]; intros a r H Hp.
  - inversion Hp; subst. reflexivity.
  - apply andb_true_iff in H as [Hc Hs]. rewrite Hc in Hp.
    destruct (isDigit_val c Hc) as [Hd _].
    rewrite wrap64_add, wrap64_step, Hd.
    apply IH; assumption.
Qed.

Lemma toDec_wraps (s : string) (v : Z) :
  isAllDigits s = true -> parseDigits 0 s = Some v -> toDec s = wrap64 v.
Proof.
  intros Hs Hp. rewrite toDec_loop. change 0 with (wrap64 0) at 1.
  apply toDecLoop_parseDigits; assumption.
Qed.

Lemma toDec_small (s : string) :
  isAllDigits s = true -> (String.length s <= 18)%nat ->
  exists v, parseDigits 0 s = Some v /\ 0 <= v < 10 ^ 18 /\ toDec s = v.
Proof.
  intros Hs Hlen.
  destruct (parseDigits_value s Hs) as (v & Hv & Hall).
  pose proof (Hall 0) as Hp. replace (0 * _ + v) with v in Hp by lia.
  assert (Hpow : 10 ^ Z.of_nat (String.length s) <= 10 ^ 18)
    by (apply Z.pow_le_mono_r; lia).
  exists v. split; [exact Hp|]. split; [lia|].
  rewrite (toDec_wraps s v Hs Hp). apply wrap64_small.
  unfold min_int64, max_int64. lia.
Qed.

(** The empty string and leading zeros count for nothing; a string of
    digits is read as the number it denotes, reduced to the 64 bits of an
    [int] without any error (strconv.Atoi rejects what does not fit);
    up to 18 digits the value is exact and not negative. *)
Theorem toDec_value (s : string) (v : Z) :
  isAllDigits s = true -> parseDigits 0 s = Some v ->
  toDec s = wrap64 v
  /\ (v <= max_int64 -> toDec s = v /\ (s <> EmptyString -> Atoi s = Some v))
  /\ ((String.length s <= 18)%nat -> 0 <= v < 10 ^ 18 /\ toDec s = v).
Proof.
  intros Hs Hp.
  pose proof (toDec_wraps s v Hs Hp) as Hw.
  destruct (parseDigits_value s Hs) as (v' & Hv & Hall).
  rewrite Hall in Hp. inversion Hp; subst v. clear Hp.
  replace (0 * 10 ^ Z.of_nat (String.length s) + v') with v' in * by lia.
  split; [exact Hw|]. split.
  - intros Hmax.
    assert (Hsmall : wrap64 v' = v') by (apply wrap64_small; unfold min_int64; lia).
    split; [rewrite Hw; exact Hsmall|]. intros Hne.
    assert (Hin : in_int64 v' = true) by (apply in_int64_true; unfold min_int64; lia).
    destruct s as [|c s]; [congruence|].
    cbn [isAllDigits] in Hs. apply andb_true_iff in Hs as [Hc Hs'].
    assert (Hsign : c <> "-"%char /\ c <> "+"%char)
      by (split; intros ->; discriminate).
    destruct Hsign as [Hm Hpl].
    assert (Hat : Atoi (String c s)
                  = match parseDigits 0 (String c s) with
                    | Some v => if in_int64 v then Some v else None
                    | None => None
                    end).
    { unfold Atoi.
      destruct c as [[] [] [] [] [] [] [] []]; try reflexivity; congruence. }
    rewrite Hat, Hall. replace (0 * _ + v') with v' by lia. rewrite Hin. reflexivity.
  - intros Hlen.
    assert (Hpow : 10 ^ Z.of_nat (String.length s) <= 10 ^ 18)
      by (apply Z.pow_le_mono_r; lia).
    split; [lia|]. rewrite Hw. apply wrap64_small.
    unfold min_int64, max_int64. lia.
Qed.

Lemma toDec_value_witness :
  toDec "0064" = wrap64 64
  /\ (64 <= max_int64 -> toDec "0064" = 64 /\ ("0064" <> EmptyString -> Atoi "0064" = Some 64))
  /\ ((String.length "0064" <= 18)%nat -> 0 <= 64 < 10 ^ 18 /\ toDec "0064" = 64).
Proof.
  apply (toDec_value "0064" 64); reflexivity.
Defined.

(** Zeros in front change nothing, and a string of zeros alone, like
    the empty string, reads as 0. *)
Theorem toDec_leading_zeros (k : nat) (s : string) :
  toDec (zeros k +:+ s) = toDec s /\ toDec (zeros k) = 0.
Proof.
  split.
  - rewrite !toDec_loop. apply toDecLoop_zeros.
  - rewrite toDec_loop.
    assert (H : forall t : string, t = t +:+ EmptyString).
    { induction t as [|c t IH]; [reflexivity|].
      change (String c t = String c (t +:+ EmptyString)). f_equal. exact IH. }
    rewrite (H (zeros k)), toDecLoop_zeros. reflexivity.
Qed.

Lemma byteVal_inj (c c' : ascii) : byteVal c = byteVal c' -> c = c'.
Proof.
  unfold byteVal. intros H. apply N2Z.inj in H.
  rewrite <- (ascii_N_embedding c), <- (ascii_N_embedding c'), H. reflexivity.
Qed.

(** Two strings of digits of one length that denote one number are the
    same string. *)
Lemma digits_inj (s : string) :
  forall (t : string) (v : Z),
    isAllDigits s = true -> isAllDigits t = true ->
    String.length s = String.length t ->
    parseDigits 0 s = Some v -> parseDigits 0 t = Some v -> s = t.
Proof.
  induction s as [|c s IH]; intros [|c' t] v Hs Ht Hlen Hps Hpt;
    try discriminate; [reflexivity|].
  cbn [isAllDigits] in Hs, Ht. cbn [String.length] in Hlen.
  apply andb_true_iff in Hs as [Hc Hs]. apply andb_true_iff in Ht as [Hc' Ht].
  cbn [parseDigits] in Hps, Hpt. rewrite Hc in Hps. rewrite Hc' in Hpt.
  destruct (parseDigits_value s Hs) as (v1 & Hv1 & Hall1).
  destruct (parseDigits_value t Ht) as (v2 & Hv2 & Hall2).
  rewrite Hall1 in Hps. rewrite Hall2 in Hpt.
  assert (Hl : String.length s = String.length t) by lia.
  rewrite <- Hl in Hv2, Hall2, Hpt.
  destruct (isDigit_val c Hc) as [_ Hd]. destruct (isDigit_val c' Hc') as [_ Hd'].
  inversion Hps as [E1]. inversion Hpt as [E2]. rewrite <- E2 in E1. clear E2 Hps Hpt.
  set (P := 10 ^ Z.of_nat (String.length s)) in *.
  assert (Hdd : byteVal c - 48 = byteVal c' - 48) by nia.
  assert (Hvv : v1 = v2) by nia.
  f_equal.
  - apply byteVal_inj. lia.
  - apply (IH t v1 Hs Ht Hl).
    + rewrite Hall1. f_equal; lia.
    + rewrite Hall2. f_equal; lia.
Qed.

(** The number a label denotes, without the width condition. *)
Lemma label_digits (p : nat) (i : Z) :
  0 <= i <= max_int64 ->
  isAllDigits (Sprintf_0d p i) = true /\ toDec (Sprintf_0d p i) = i.
Proof.
  intros Hi.
  assert (Hfmt : Sprintf_0d p i = zeroPad p (pretty (Z.to_N i)))
    by (destruct i; [reflexivity | reflexivity | lia]).
  rewrite Hfmt, toDec_loop. unfold zeroPad.
  rewrite isAllDigits_zeros, toDecLoop_zeros.
  unfold pretty, pretty_N. destruct (decide (Z.to_N i = 0%N)) as [H0 | Hne].
  - assert (i = 0) as -> by lia. split; reflexivity.
  - rewrite toDecLoop_pretty by (rewrite Z2N.id; lia).
    rewrite isAllDigits_pretty. simpl. split; [reflexivity | apply Z2N.id; lia].
Qed.

(** The label of the first index is the start string as it was typed:
    formatting what toDec read, at the width of the string, gives the
    string back (for 1 to 18 digits). *)
Theorem label_of_start (s : string) :
  isAllDigits s = true -> s <> EmptyString -> (String.length s <= 18)%nat ->
  Sprintf_0d (String.length s) (toDec s) = s.
Proof.
  intros Hs Hne Hlen.
  destruct (parseDigits_value s Hs) as (v0 & Hv0 & _).
  destruct (toDec_small s Hs Hlen) as (v & Hp & Hv18 & Hdec). rewrite Hdec.
  assert (Hv : v < 10 ^ Z.of_nat (String.length s)).
  { destruct (parseDigits_value s Hs) as (v1 & Hv1 & Hall1).
    rewrite Hall1 in Hp. inversion Hp. lia. }
  assert (Hmax : 0 <= v <= max_int64) by (unfold max_int64; lia).
  assert (Hpos : (1 <= String.length s)%nat)
    by (destruct s; [congruence | simpl; lia]).
  destruct (label_facts (String.length s) v Hmax Hpos) as (Hd & Ht & _ & Hl & _).
  specialize (Hl Hv).
  destruct (toDec_small _ Hd ltac:(rewrite Hl; exact Hlen)) as (v' & Hp' & _ & Hdec').
  rewrite Ht in Hdec'. subst v'.
  symmetry. apply (digits_inj s _ v); try assumption. symmetry. exact Hl.
Qed.

Lemma label_of_start_witness : Sprintf_0d (String.length "0064") (toDec "0064") = "0064".
Proof.
  apply (label_of_start "0064"); [reflexivity | discriminate | simpl; lia].
Defined.

(** ** What setup hands to the loop *)

(** When main does not exit, the width is the length of -start and at
    least 1, the ends are what toDec reads from -start and from -end (or
    from -start when -end is left out), the range is not empty and both
    ends are not negative and below 10^18 (for up to 18 digits, where
    toDec cannot wrap). *)
Theorem setup_guarantees (startStr endStr : string) (p : nat) (a b : Z) :
  setup startStr endStr = Some (p, a, b) ->
  (String.length startStr <= 18)%nat -> (String.length endStr <= 18)%nat ->
  p = String.length startStr /\ (1 <= p)%nat
  /\ a = toDec startStr
  /\ b = toDec (if String.eqb endStr EmptyString then startStr else endStr)
  /\ 0 <= a <= b /\ b < 10 ^ 18 /\ b <= max_int64.
Proof.
  unfold setup. intros H Hls Hle.
  destruct (String.eqb_spec startStr EmptyString) as [-> | Hne]; [discriminate|].
  destruct (isAllDigits startStr) eqn:Hs; [|discriminate]. cbn [negb] in H.
  set (e := if String.eqb endStr EmptyString then startStr else endStr) in *.
  assert (Hlen_e : (String.length e <= 18)%nat)
    by (unfold e; destruct (String.eqb endStr EmptyString); assumption).
  destruct (isAllDigits e) eqn:He; [|discriminate]. cbn [negb] in H.
  destruct (Z.ltb_spec (toDec e) (toDec startStr)) as [Hlt | Hge]; [discriminate|].
  inversion H; subst p a b. clear H.
  destruct (toDec_small startStr Hs Hls) as (v & _ & Hv18 & Hdec).
  destruct (toDec_small e He Hlen_e) as (w & _ & Hw18 & Hdecw).
  split; [reflexivity|].
  split; [destruct startStr; [congruence | simpl; lia]|].
  split; [reflexivity|]. split; [reflexivity|].
  split; [lia|]. split; [lia|]. unfold max_int64; lia.
Qed.

Lemma setup_guarantees_witness :
  4%nat = String.length "0064" /\ (1 <= 4)%nat
  /\ 64 = toDec "0064"
  /\ 77 = toDec (if String.eqb "77" EmptyString then "0064" else "77")
  /\ 0 <= 64 <= 77 /\ 77 < 10 ^ 18 /\ 77 <= max_int64.
Proof.
  apply (setup_guarantees "0064" "77" 4 64 77); [reflexivity | simpl; lia | simpl; lia].
Defined.

(** -end may be typed with or without zeros in front, and when it is
    left out the range is the single file -start. *)
Theorem setup_end_forms (startStr endStr : string) (k : nat) :
  endStr <> EmptyString ->
  setup startStr (zeros k +:+ endStr) = setup startStr endStr
  /\ setup startStr EmptyString = setup startStr startStr.
Proof.
  intros Hne. split.
  - unfold setup.
    assert (Hnz : String.eqb (zeros k +:+ endStr) EmptyString = false).
    { apply String.eqb_neq. intros H. apply (f_equal String.length) in H.
      rewrite length_append in H. destruct endStr; [congruence | simpl in H; lia]. }
    assert (Hn : String.eqb endStr EmptyString = false)
      by (apply String.eqb_neq; exact Hne).
    rewrite Hnz, Hn, isAllDigits_zeros.
    rewrite (toDec_loop (zeros k +:+ endStr)), toDecLoop_zeros, <- toDec_loop.
    reflexivity.
  - unfold setup. simpl.
    destruct (String.eqb_spec startStr EmptyString) as [-> | Hs]; reflexivity.
Qed.

Lemma setup_end_forms_witness :
  setup "0064" (zeros 2 +:+ "77") = setup "0064" "77"
  /\ setup "0064" EmptyString = setup "0064" "0064".
Proof.
  apply (setup_end_forms "0064" "77" 2). discriminate.
Defined.

(** ** One file and one URL per index *)





(** ** The hint parseRetryAfter returns *)

Lemma Atoi_digits (s : string) (v : Z) :
  isAllDigits s = true -> s <> EmptyString ->
  parseDigits 0 s = Some v -> in_int64 v = true -> Atoi s = Some v.
Proof.
  intros Hs Hne Hp Hin. destruct s as [|c s]; [congruence|].
  assert (Hc : isDigit c = true)
    by (cbn [isAllDigits] in Hs; apply andb_true_iff in Hs; tauto).
  assert (Hat : Atoi (String c s)
                = match parseDigits 0 (String c s) with
                  | Some v => if in_int64 v then Some v else None
                  | None => None
                  end).
  { unfold Atoi.
    destruct c as [[] [] [] [] [] [] [] []]; try reflexivity; discriminate. }
  rewrite Hat, Hp, Hin. reflexivity.
Qed.

Lemma pretty_digits (n : Z) :
  0 <= n < 10 ^ 18 ->
  isAllDigits (pretty (Z.to_N n)) = true
  /\ pretty (Z.to_N n) <> EmptyString
  /\ parseDigits 0 (pretty (Z.to_N n)) = Some n.
Proof.
  intros Hn.
  assert (Hmax : 0 <= n <= max_int64) by (unfold max_int64; lia).
  destruct (label_digits 0 n Hmax) as [Hd Ht].
  assert (Hfmt : Sprintf_0d 0 n = pretty (Z.to_N n))
    by (destruct n; [reflexivity | reflexivity | lia]).
  rewrite Hfmt in Hd, Ht.
  assert (Hlen : (String.length (pretty (Z.to_N n)) <= 18)%nat).
  { apply (length_pretty (Z.to_N n) 18); [lia|]. rewrite Z2N.id by lia.
    change (Z.of_nat 18) with 18. lia. }
  destruct (toDec_small _ Hd Hlen) as (v & Hp & _ & Hv).
  split; [exact Hd|]. split; [|congruence].
  unfold pretty, pretty_N. destruct (decide (Z.to_N n = 0%N)); [discriminate|].
  intros H. pose proof (pretty_N_go_ne_0 (Z.to_N n) EmptyString ltac:(discriminate)).
  destruct (length_pretty_go (Z.to_N n) EmptyString) as (L & HL & _ & Hpos).
  rewrite H in HL. simpl in HL. destruct (Hpos ltac:(lia)) as [H1 _]. lia.
Qed.

Lemma trimRight_digits (s : string) : isAllDigits s = true -> trimRight s = s.
Proof.
  induction s as [|c s IH]; [reflexivity|]. cbn [isAllDigits trimRight]. intros H.
  apply andb_true_iff in H as [Hc Hs]. rewrite (IH Hs).
  assert (Hsp : isSpace c = false).
  { unfold isDigit in Hc. apply andb_true_iff in Hc as [H1 H2].
    apply Z.leb_le in H1, H2. unfold isSpace.
    apply orb_false_iff. split; [apply andb_false_iff; right; apply Z.leb_gt; lia|].
    apply Z.eqb_neq. lia. }
  rewrite Hsp. destruct s; reflexivity.
Qed.

(** A Retry-After of n seconds in decimal, for 0 <= n <= 9223372036 and
    with or without ASCII white space around it, yields exactly n
    seconds; the date parser and the clock play no part. *)
Theorem retry_after_seconds (ParseTime : string -> option Z) (now n : Z) (v : string) :
  0 <= n <= 9223372036 -> TrimSpace v = pretty (Z.to_N n) ->
  parseRetryAfter ParseTime now v = (n * Second, true).
Proof.
  intros Hn Htrim. unfold parseRetryAfter. cbv zeta. rewrite Htrim.
  destruct (pretty_digits n ltac:(lia)) as (Hd & Hne & Hp).
  rewrite (Atoi_digits _ n Hd Hne Hp)
    by (apply in_int64_true; unfold min_int64, max_int64; lia).
  destruct (Z.leb_spec 0 n); [|lia].
  unfold seconds. rewrite wrap64_small; [reflexivity|].
  unfold min_int64, max_int64, Second. lia.
Qed.

Lemma retry_after_seconds_witness :
  parseRetryAfter sampleDates 1000 " 120 " = (120 * Second, true).
Proof.
  apply (retry_after_seconds sampleDates 1000 120 " 120 "); [lia | reflexivity].
Defined.

(** The hint is 0 whenever the header is not understood, an HTTP-date
    never gives a negative hint, and the only negative hints come from a
    count of seconds above 9223372036, whose product with 10^9 wraps. *)
Theorem retry_after_sign (ParseTime : string -> option Z) (now d : Z) (v : string)
    (ok : bool) :
  parseRetryAfter ParseTime now v = (d, ok) ->
  (ok = false -> d = 0)
  /\ (d < 0 ->
      exists secs, Atoi (TrimSpace v) = Some secs
                   /\ 9223372036 < secs /\ d = wrap64 (secs * Second)).
Proof.
  unfold parseRetryAfter. cbv zeta. intros H.
  assert (Hdate : forall d' ok',
            match ParseTime v with
            | Some t => ((if Until t now <? 0 then 0 else Until t now), true)
            | None => (0, false)
            end = (d', ok') -> (ok' = false -> d' = 0) /\ 0 <= d').
  { intros d' ok' Hm. destruct (ParseTime v) as [t|].
    - inversion Hm; subst. split; [discriminate|].
      destruct (Z.ltb_spec (Until t now) 0); lia.
    - inversion Hm; subst. split; [reflexivity | lia]. }
  destruct (Atoi (TrimSpace v)) as [secs|] eqn:Ha.
  - destruct (Z.leb_spec 0 secs) as [Hs | Hs].
    + inversion H; subst. split; [discriminate|]. intros Hneg.
      exists secs. split; [reflexivity|]. split; [|reflexivity].
      destruct (Z_le_gt_dec secs 9223372036) as [Hle | Hgt]; [|lia].
      exfalso. unfold seconds in Hneg. rewrite wrap64_small in Hneg;
        unfold min_int64, max_int64, Second in *; lia.
    + destruct (Hdate d ok H) as [H0 Hn]. split; [exact H0 | lia].
  - destruct (Hdate d ok H) as [H0 Hn]. split; [exact H0 | lia].
Qed.

Lemma retry_after_sign_witness :
  (true = false -> -9223372036709551616 = 0)
  /\ (-9223372036709551616 < 0 ->
      exists secs, Atoi (TrimSpace "9223372037") = Some secs
                   /\ 9223372036 < secs
                   /\ -9223372036709551616 = wrap64 (secs * Second)).
Proof.
  apply (retry_after_sign sampleDates 1000 (-9223372036709551616) "9223372037" true).
  vm_compute. reflexivity.
Defined.

(** ** What a call of downloadFile leaves on the disk *)

(** The three shapes of the disk operations of a call. *)
Lemma downloadFile_shapes (ParseTime : string -> option Z) (a : attempt) (file : string)
    (res : dlResult) (ops : list fsOp) :
  downloadFile ParseTime a file = (res, ops) ->
  (ops = [] /\ isSuccess res = false
   /\ (Err res <> None -> StatusCode res = 200 \/ (StatusCode res = 0 /\ RetryAfter res = 0)))
  \/ (exists ra body n,
        reply a = Response 200 ra body
        /\ ops = [OpCreate (file +:+ ".part"); OpWrite (file +:+ ".part") (prefix n body);
                  OpClose (file +:+ ".part")]
        /\ StatusCode res = 200 /\ Err res <> None)
  \/ (exists ra body,
        reply a = Response 200 ra body
        /\ ops = [OpCreate (file +:+ ".part"); OpWrite (file +:+ ".part") body;
                  OpClose (file +:+ ".part"); OpRename (file +:+ ".part") file]
        /\ StatusCode res = 200 /\ Err res = None).
Proof.
  unfold downloadFile. intros Hdl.
  assert (Hfull : forall body : string, prefix (String.length body) body = body).
  { induction body as [|c body IH]; [reflexivity | simpl; rewrite IH; reflexivity]. }
  destruct (reply a) as [e|e|status ra body] eqn:Hreply.
  - inversion Hdl; subst. left. repeat split. intros _. right. split; reflexivity.
  - inversion Hdl; subst. left. repeat split. intros _. right. split; reflexivity.
  - remember (if String.eqb ra EmptyString then mkResult status 0 None
              else match parseRetryAfter ParseTime (clock a) ra with
                   | (dur, true) => mkResult status dur None
                   | (_, false) => mkResult status 0 None
                   end) as res0 eqn:Hdef.
    assert (Hres0 : StatusCode res0 = status /\ Err res0 = None).
    { rewrite Hdef. destruct (String.eqb ra EmptyString); [split; reflexivity|].
      destruct (parseRetryAfter ParseTime (clock a) ra) as [dur [|]];
        split; reflexivity. }
    clear Hdef. destruct Hres0 as [Hs0 He0].
    destruct (Z.eqb_spec status 200) as [-> | Hne]; cbn [negb] in Hdl.
    + destruct (createErr (disk a)) as [e|].
      { inversion Hdl; subst res ops. left. simpl.
        split; [reflexivity|]. split; [reflexivity|]. intros _. left. exact Hs0. }
      destruct (copyErr (disk a)) as [[n e]|].
      { inversion Hdl; subst res ops. right. left. exists ra, body, n. simpl.
        repeat split; try assumption. discriminate. }
      destruct (closeErr (disk a)) as [e|].
      { inversion Hdl; subst res ops. right. left.
        exists ra, body, (String.length body).
        simpl. rewrite Hfull. repeat split; try assumption. discriminate. }
      destruct (renameErr (disk a)) as [e|].
      { inversion Hdl; subst res ops. right. left.
        exists ra, body, (String.length body).
        simpl. rewrite Hfull. repeat split; try assumption. discriminate. }
      inversion Hdl; subst res ops. right. right. exists ra, body.
      repeat split; assumption.
    + inversion Hdl; subst res ops. left. split; [reflexivity|]. split.
      * unfold isSuccess. rewrite Hs0. apply andb_false_iff. right.
        apply Z.eqb_neq. exact Hne.
      * intros He. congruence.
Qed.

Lemma staged_data (fs : filesys) (tmp data : string) :
  applyOps fs [OpCreate tmp; OpWrite tmp data; OpClose tmp] !! tmp = Some data.
Proof.
  unfold applyOps. simpl. rewrite lookup_insert_eq. simpl. apply lookup_insert_eq.
Qed.

Lemma applyOps_snoc (fs : filesys) (ops : list fsOp) (op : fsOp) :
  applyOps fs (ops ++ [op]) = applyOp (applyOps fs ops) op.
Proof. unfold applyOps. rewrite foldl_snoc. reflexivity. Qed.

(** The result tells what is at the destination path: after a call that
    counts as a success (status 200, no error) the path holds the whole
    body and the temporary file is gone; after any other call the path
    holds what it held before. *)
Theorem success_means_published (ParseTime : string -> option Z) (a : attempt)
    (file : string) (fs : filesys) (res : dlResult) (ops : list fsOp) :
  downloadFile ParseTime a file = (res, ops) ->
  (isSuccess res = true ->
   exists ra body, reply a = Response 200 ra body
     /\ applyOps fs ops !! file = Some body
     /\ applyOps fs ops !! (file +:+ ".part") = None)
  /\ (isSuccess res = false -> applyOps fs ops !! file = fs !! file).
Proof.
  intros Hdl.
  destruct (downloadFile_shapes _ _ _ _ _ Hdl)
    as [(-> & Hs & _) | [(ra & body & n & Hr & -> & Hst & He)
                        | (ra & body & Hr & -> & Hst & He)]].
  - split; [congruence | reflexivity].
  - assert (Hs : isSuccess res = false).
    { unfold isSuccess. apply andb_false_iff. left.
      apply bool_decide_eq_false. exact He. }
    split; [congruence|]. intros _.
    apply (staging_elsewhere fs file (prefix n body) _ []).
    rewrite app_nil_r. reflexivity.
  - assert (Hs : isSuccess res = true).
    { unfold isSuccess. rewrite Hst. apply andb_true_iff.
      split; [apply bool_decide_eq_true; exact He | reflexivity]. }
    split; [|congruence]. intros _. exists ra, body.
    split; [exact Hr|]. split; [apply published_body|].
    change [OpCreate (file +:+ ".part"); OpWrite (file +:+ ".part") body;
            OpClose (file +:+ ".part"); OpRename (file +:+ ".part") file]
      with ([OpCreate (file +:+ ".part"); OpWrite (file +:+ ".part") body;
             OpClose (file +:+ ".part")] ++ [OpRename (file +:+ ".part") file]).
    rewrite applyOps_snoc. unfold applyOp at 1. rewrite staged_data.
    rewrite lookup_insert_ne by (intros H; symmetry in H; exact (part_ne file H)).
    apply lookup_delete_eq.
Qed.

Lemma success_means_published_witness :
  (isSuccess (mkResult 200 0 None) = true ->
   exists ra body, reply (answer 200 "" "data") = Response 200 ra body
     /\ applyOps ∅ [OpCreate "path/0064.png.part"; OpWrite "path/0064.png.part" "data";
                    OpClose "path/0064.png.part";
                    OpRename "path/0064.png.part" "path/0064.png"]
          !! "path/0064.png" = Some body
     /\ applyOps ∅ [OpCreate "path/0064.png.part"; OpWrite "path/0064.png.part" "data";
                    OpClose "path/0064.png.part";
                    OpRename "path/0064.png.part" "path/0064.png"]
          !! ("path/0064.png" +:+ ".part") = None)
  /\ (isSuccess (mkResult 200 0 None) = false ->
      applyOps ∅ [OpCreate "path/0064.png.part"; OpWrite "path/0064.png.part" "data";
                  OpClose "path/0064.png.part";
                  OpRename "path/0064.png.part" "path/0064.png"]
        !! "path/0064.png" = (∅ : filesys) !! "path/0064.png").
Proof.
  apply (success_means_published sampleDates (answer 200 "" "data") "path/0064.png" ∅).
  vm_compute. reflexivity.
Defined.

Lemma downloadFile_frame (ParseTime : string -> option Z) (a : attempt)
    (file : string) (fs : filesys) (res : dlResult) (ops : list fsOp) (p : string) :
  downloadFile ParseTime a file = (res, ops) ->
  p <> file -> p <> file +:+ ".part" ->
  applyOps fs ops !! p = fs !! p.
Proof.
  intros Hdl Hf Ht.
  assert (Hstage : forall data,
            applyOps fs [OpCreate (file +:+ ".part"); OpWrite (file +:+ ".part") data;
                         OpClose (file +:+ ".part")] !! p = fs !! p).
  { intros data. apply applyOps_elsewhere. intros op Hin. simpl in Hin.
    destruct Hin as [<- | [<- | [<- | []]]]; congruence. }
  destruct (downloadFile_shapes _ _ _ _ _ Hdl)
    as [(-> & _) | [(ra & body & n & _ & -> & _) | (ra & body & _ & -> & _)]].
  - reflexivity.
  - apply Hstage.
  - change [OpCreate (file +:+ ".part"); OpWrite (file +:+ ".part") body;
            OpClose (file +:+ ".part"); OpRename (file +:+ ".part") file]
      with ([OpCreate (file +:+ ".part"); OpWrite (file +:+ ".part") body;
             OpClose (file +:+ ".part")] ++ [OpRename (file +:+ ".part") file]).
    rewrite applyOps_snoc. unfold applyOp at 1. rewrite staged_data.
    rewrite lookup_insert_ne by congruence.
    rewrite lookup_delete_ne by congruence. apply Hstage.
Qed.

(** A call touches two paths only: a path whose content differs after
    the call is the destination or its temporary sibling, and a call
    that changes anything at all had status 200. *)
Theorem download_touches_two_paths (ParseTime : string -> option Z) (a : attempt)
    (file : string) (fs : filesys) (res : dlResult) (ops : list fsOp) (p : string) :
  downloadFile ParseTime a file = (res, ops) ->
  applyOps fs ops !! p <> fs !! p ->
  (p = file \/ p = file +:+ ".part") /\ StatusCode res = 200.
Proof.
  intros Hdl Hdiff. split.
  - destruct (decide (p = file)) as [Hf | Hf]; [left; exact Hf|].
    destruct (decide (p = file +:+ ".part")) as [Ht | Ht]; [right; exact Ht|].
    exfalso. apply Hdiff. exact (downloadFile_frame _ _ _ _ _ _ _ Hdl Hf Ht).
  - destruct (downloadFile_shapes _ _ _ _ _ Hdl)
      as [(-> & _) | [(ra & body & n & _ & _ & Hs & _) | (ra & body & _ & _ & Hs & _)]];
      [exfalso; apply Hdiff; reflexivity | exact Hs | exact Hs].
Qed.

Lemma download_touches_two_paths_witness :
  ("path/0064.png" = "path/0064.png" \/ "path/0064.png" = "path/0064.png" +:+ ".part")
  /\ StatusCode (mkResult 200 0 None) = 200.
Proof.
  apply (download_touches_two_paths sampleDates (answer 200 "" "data") "path/0064.png"
           {["path/0001.png" := "old"]} (mkResult 200 0 None)
           [OpCreate "path/0064.png.part"; OpWrite "path/0064.png.part" "data";
            OpClose "path/0064.png.part"; OpRename "path/0064.png.part" "path/0064.png"]
           "path/0064.png").
  - vm_compute. reflexivity.
  - vm_compute. discriminate.
Defined.

(** No clean-up: when the write, the close or the rename fails, the
    temporary file stays on the disk, holding the bytes of the body that
    were written. *)
Theorem failed_write_leaves_part_file (ParseTime : string -> option Z) (a : attempt)
    (file : string) (fs : filesys) (res : dlResult) (ops : list fsOp) :
  downloadFile ParseTime a file = (res, ops) ->
  Err res <> None -> ops <> [] ->
  exists ra body n,
    reply a = Response 200 ra body
    /\ applyOps fs ops !! (file +:+ ".part") = Some (prefix n body)
    /\ applyOps fs ops !! file = fs !! file.
Proof.
  intros Hdl He Hops.
  destruct (downloadFile_shapes _ _ _ _ _ Hdl)
    as [(-> & _) | [(ra & body & n & Hr & -> & _) | (ra & body & _ & _ & _ & He')]].
  - congruence.
  - exists ra, body, n. split; [exact Hr|]. split; [apply staged_data|].
    apply (staging_elsewhere fs file (prefix n body) _ []).
    rewrite app_nil_r. reflexivity.
  - congruence.
Qed.

Lemma failed_write_leaves_part_file_witness :
  exists ra body n,
    reply (mkAttempt (Response 200 "" "data") 1000
             (mkFaults None (Some (2%nat, "disk full")) None None))
    = Response 200 ra body
    /\ applyOps ∅ [OpCreate "path/0064.png.part"; OpWrite "path/0064.png.part" "da";
                   OpClose "path/0064.png.part"]
         !! ("path/0064.png" +:+ ".part") = Some (prefix n body)
    /\ applyOps ∅ [OpCreate "path/0064.png.part"; OpWrite "path/0064.png.part" "da";
                   OpClose "path/0064.png.part"]
         !! "path/0064.png" = (∅ : filesys) !! "path/0064.png".
Proof.
  apply (failed_write_leaves_part_file sampleDates
           (mkAttempt (Response 200 "" "data") 1000
              (mkFaults None (Some (2%nat, "disk full")) None None))
           "path/0064.png" ∅ (mkResult 200 0 (Some "disk full"))).
  - vm_compute. reflexivity.
  - discriminate.
  - discriminate.
Defined.

(** No status of the HTTP error range comes with an error value: an
    error is either local (status 200: the disk failed) or there was no
    response at all (status 0, no hint, nothing written). *)
Theorem error_or_http_status (ParseTime : string -> option Z) (a : attempt)
    (file : string) (res : dlResult) (ops : list fsOp) :
  downloadFile ParseTime a file = (res, ops) ->
  Err res <> None ->
  StatusCode res = 200 \/ (StatusCode res = 0 /\ RetryAfter res = 0 /\ ops = []).
Proof.
  intros Hdl He.
  destruct (downloadFile_shapes _ _ _ _ _ Hdl)
    as [(-> & _ & H) | [(ra & body & n & _ & _ & Hs & _) | (ra & body & _ & _ & Hs & _)]].
  - destruct (H He) as [H200 | [H0 Hra]]; [left; exact H200|].
    right. repeat split; assumption.
  - left. exact Hs.
  - left. exact Hs.
Qed.

Lemma error_or_http_status_witness :
  StatusCode (mkResult 0 0 (Some "timeout")) = 200
  \/ (StatusCode (mkResult 0 0 (Some "timeout")) = 0
      /\ RetryAfter (mkResult 0 0 (Some "timeout")) = 0 /\ @nil fsOp = []).
Proof.
  apply (error_or_http_status sampleDates
           (mkAttempt (TransportError "timeout") 1000 noFaults) "path/0064.png").
  - reflexivity.
  - discriminate.
Defined.

(** ** The run as a whole *)

Lemma visited_app (l1 l2 : list event) : visited (l1 ++ l2) = visited l1 ++ visited l2.
Proof.
  induction l1 as [|[i|i [|k] res c|w out|c] l1 IH]; simpl; congruence.
Qed.

Lemma requests_app (l1 l2 : list event) :
  requests (l1 ++ l2) = (requests l1 + requests l2)%nat.
Proof.
  induction l1 as [|[i|i k res c|w out|c] l1 IH]; simpl; congruence.
Qed.







(** What a call does to the destination path. *)
Lemma downloadFile_dest (ParseTime : string -> option Z) (a : attempt)
    (file : string) (fs : filesys) (res : dlResult) (ops : list fsOp) :
  downloadFile ParseTime a file = (res, ops) ->
  applyOps fs ops !! file = fs !! file
  \/ exists ra body, reply a = Response 200 ra body /\ applyOps fs ops !! file = Some body.
Proof.
  intros Hdl.
  destruct (downloadFile_shapes _ _ _ _ _ Hdl)
    as [(-> & _) | [(ra & body & n & Hr & -> & _) | (ra & body & Hr & -> & _)]].
  - left. reflexivity.
  - left. apply (staging_elsewhere fs file (prefix n body) _ []).
    rewrite app_nil_r. reflexivity.
  - right. exists ra, body. split; [exact Hr | apply published_body].
Qed.

Section WholeRun.

Variable ParseTime : string -> option Z.
Variable cfg : config.
Variable world : Z -> nat -> attempt.
Variable rnd : nat -> Z.

Lemma sleep_files (w : Z) (st st' : runState) (ev : event) (returned : bool) :
  sleep cfg rnd w st = (ev, st', returned) -> files st' = files st.
Proof. unfold sleep. intros H. inversion H; subst. reflexivity. Qed.

Lemma fetch_files (i : Z) (k : nat) (st st' : runState) (res : dlResult) :
  fetch ParseTime cfg world i k st = (res, st') ->
  exists ops, downloadFile ParseTime (world i k) (fileNow cfg i) = (res, ops)
    /\ files st' = applyOps (files st) ops.
Proof.
  unfold fetch. destruct (downloadFile _ _ _) as [r ops] eqn:Hd.
  intros H. inversion H; subst. exists ops. split; reflexivity.
Qed.

Lemma retryLoop_shape (n : nat) :
  forall (k : nat) (i : Z) (st st' : runState) (tr : list event) (e : retryEnd),
    retryLoop ParseTime cfg world rnd n (S k) i st = (tr, st', e) ->
    visited tr = []
    /\ (requests tr <= n)%nat
    /\ Forall (forIndex i) tr
    /\ (e <> RetryOk -> tr = [] \/ exists tl w out, tr = tl ++ [EvSleep w out]).
Proof.
  induction n as [|n IH]; intros k i st st' tr e Hrun; cbn [retryLoop] in Hrun.
  - inversion Hrun; subst. simpl. repeat split; [lia | constructor | left; reflexivity].
  - destruct (fetch ParseTime cfg world i (S k) st) as [res st1] eqn:Hf.
    destruct (isSuccess res).
    + inversion Hrun; subst. simpl.
      repeat split; [lia | repeat constructor | congruence].
    + destruct (sleep cfg rnd (retryWait cfg res) st1) as [[ev st2] returned] eqn:Hsl.
      destruct (sleep_inv _ _ _ _ _ _ _ Hsl) as (out & -> & _).
      destruct returned.
      * destruct (retryLoop ParseTime cfg world rnd n (S (S k)) i st2)
          as [[tr' st3] e'] eqn:Hrec.
        inversion Hrun; subst.
        destruct (IH _ _ _ _ _ _ Hrec) as (Hv & Hr & Hall & Hend).
        simpl. repeat split; [exact Hv | lia | repeat constructor; exact Hall |].
        intros He. right. destruct (Hend He) as [-> | (tl & w & o & ->)].
        -- exists [EvFetch i (S k) res (consecErrors st2)], (retryWait cfg res), out.
           reflexivity.
        -- exists (EvFetch i (S k) res (consecErrors st2)
                   :: EvSleep (retryWait cfg res) out :: tl), w, o.
           reflexivity.
      * inversion Hrun; subst. simpl.
        repeat split; [lia | repeat constructor |].
        intros _. right.
        exists [EvFetch i (S k) res (consecErrors st')], (retryWait cfg res), out.
        reflexivity.
Qed.

Lemma politeWait_shape (i : Z) (st st' : runState) (tr : list event) (ctl : control) :
  politeWait cfg rnd i st = (tr, st', ctl) ->
  files st' = files st
  /\ ((i < endNum cfg /\ exists w out, tr = [EvSleep w out])
      \/ (endNum cfg <= i /\ tr = [] /\ ctl = Next)).
Proof.
  unfold politeWait. intros Hrun.
  destruct (Z.ltb_spec i (endNum cfg)).
  - destruct (sleep cfg rnd (seconds (interval cfg)) st) as [[ev st1] returned] eqn:Hsl.
    destruct (sleep_inv _ _ _ _ _ _ _ Hsl) as (out & -> & _).
    pose proof (sleep_files _ _ _ _ _ Hsl) as Hfiles.
    inversion Hrun; subst. split; [exact Hfiles|]. left. eauto.
  - inversion Hrun; subst. split; [reflexivity|]. right. auto.
Qed.

(** The events of one turn of the loop: they start on the file of the
    index and concern no other, hold at most 1 + retries fetches, and
    their last is not a fetch unless the index is the last one. *)
Lemma iteration_shape (i : Z) (st st' : runState) (tr : list event) (ctl : control) :
  iteration ParseTime cfg world rnd i st = (tr, st', ctl) ->
  (exists e0 tl, tr = e0 :: tl /\ visited [e0] = [i] /\ visited tl = [])
  /\ (requests tr <= 1 + Z.to_nat (retries cfg))%nat
  /\ Forall (forIndex i) tr
  /\ ((ctl = Next /\ endNum cfg <= i)
      \/ exists tl x, tr = tl ++ [x] /\ requests [x] = O).
Proof.
  unfold iteration. intros Hrun.
  destruct (bool_decide (is_Some (files st !! fileNow cfg i))).
  - destruct (sleep cfg rnd (seconds (interval cfg)) st) as [[ev st1] returned] eqn:Hsl.
    destruct (sleep_inv _ _ _ _ _ _ _ Hsl) as (out & -> & _).
    inversion Hrun; subst. split; [|split; [|split]].
    + exists (EvSkip i), [EvSleep (seconds (interval cfg)) out]. repeat split.
    + simpl. lia.
    + repeat constructor.
    + right. exists [EvSkip i], (EvSleep (seconds (interval cfg)) out).
      split; reflexivity.
  - destruct (fetch ParseTime cfg world i 0 st) as [res st1] eqn:Hf.
    destruct (isFailure res).
    + cbv zeta in Hrun. set (consec := wrap64 (consecErrors st1 + 1)) in *.
      destruct (maxErrors cfg <=? consec).
      * inversion Hrun; subst. split; [|split; [|split]].
        -- exists (EvFetch i 0 res consec), [EvAbort consec]. repeat split.
        -- simpl. lia.
        -- repeat constructor.
        -- right. exists [EvFetch i 0 res consec], (EvAbort consec).
           split; reflexivity.
      * destruct (sleep cfg rnd (errorWait cfg consec res) _)
          as [[ev st2] returned] eqn:Hsl.
        destruct (sleep_inv _ _ _ _ _ _ _ Hsl) as (out & -> & _).
        destruct returned.
        -- destruct (retryLoop ParseTime cfg world rnd (Z.to_nat (retries cfg)) 1 i st2)
             as [[trr st3] e] eqn:Hretry.
           destruct (retryLoop_shape _ _ _ _ _ _ _ Hretry) as (Hv & Hr & Hall & Hend).
           assert (Hlast : e <> RetryOk ->
                     exists tl x, EvFetch i 0 res consec
                                  :: EvSleep (errorWait cfg consec res) out :: trr
                                  = tl ++ [x] /\ requests [x] = O).
           { intros He. destruct (Hend He) as [-> | (tl & w & o & ->)].
             - exists [EvFetch i 0 res consec], (EvSleep (errorWait cfg consec res) out).
               split; reflexivity.
             - exists (EvFetch i 0 res consec
                       :: EvSleep (errorWait cfg consec res) out :: tl), (EvSleep w o).
               split; reflexivity. }
           destruct e.
           ++ destruct (politeWait cfg rnd i st3) as [[trp st4] c] eqn:Hpol.
              destruct (politeWait_shape _ _ _ _ _ Hpol)
                as (_ & [(Hi & w & o & ->) | (Hi & -> & ->)]).
              ** inversion Hrun; subst. split; [|split; [|split]].
                 --- exists (EvFetch i 0 res consec),
                       (EvSleep (errorWait cfg consec res) out :: trr ++ [EvSleep w o]).
                     repeat split. simpl. rewrite visited_app, Hv. reflexivity.
                 --- simpl. rewrite requests_app. simpl. lia.
                 --- repeat constructor. apply Forall_app. split; [exact Hall|].
                     repeat constructor.
                 --- right.
                     exists (EvFetch i 0 res consec
                             :: EvSleep (errorWait cfg consec res) out :: trr),
                       (EvSleep w o).
                     split; reflexivity.
              ** inversion Hrun; subst. rewrite app_nil_r.
                 split; [|split; [|split]].
                 --- exists (EvFetch i 0 res consec),
                       (EvSleep (errorWait cfg consec res) out :: trr).
                     repeat split. exact Hv.
                 --- simpl. lia.
                 --- repeat constructor. exact Hall.
                 --- left. split; [reflexivity | exact Hi].
           ++ inversion Hrun; subst. split; [|split; [|split]].
              ** exists (EvFetch i 0 res consec),
                   (EvSleep (errorWait cfg consec res) out :: trr).
                 repeat split. exact Hv.
              ** simpl. lia.
              ** repeat constructor. exact Hall.
              ** right. apply Hlast. discriminate.
           ++ inversion Hrun; subst. split; [|split; [|split]].
              ** exists (EvFetch i 0 res consec),
                   (EvSleep (errorWait cfg consec res) out :: trr).
                 repeat split. exact Hv.
              ** simpl. lia.
              ** repeat constructor. exact Hall.
              ** right. apply Hlast. discriminate.
        -- inversion Hrun; subst. split; [|split; [|split]].
           ++ exists (EvFetch i 0 res consec), [EvSleep (errorWait cfg consec res) out].
              repeat split.
           ++ simpl. lia.
           ++ repeat constructor.
           ++ right. exists [EvFetch i 0 res consec],
                (EvSleep (errorWait cfg consec res) out).
              split; reflexivity.
    + cbv zeta in Hrun.
      destruct (politeWait cfg rnd i _) as [[trp st2] c] eqn:Hpol.
      destruct (politeWait_shape _ _ _ _ _ Hpol)
        as (_ & [(Hi & w & o & ->) | (Hi & -> & ->)]).
      * inversion Hrun; subst. split; [|split; [|split]].
        -- exists (EvFetch i 0 res 0), [EvSleep w o]. repeat split.
        -- simpl. lia.
        -- repeat constructor.
        -- right. exists [EvFetch i 0 res 0], (EvSleep w o). split; reflexivity.
      * inversion Hrun; subst. split; [|split; [|split]].
        -- exists (EvFetch i 0 res 0), []. repeat split.
        -- simpl. lia.
        -- repeat constructor.
        -- left. split; [reflexivity | exact Hi].
Qed.

Lemma loop_nil_trace (idx : list Z) (st st' : runState) (e : ending) :
  loop ParseTime cfg world rnd idx st = ([], st', e) -> idx = [].
Proof.
  destruct idx as [|i rest]; [reflexivity|]. cbn [loop].
  destruct (iteration ParseTime cfg world rnd i st) as [[tr1 st1] c] eqn:Hit.
  destruct (iteration_shape _ _ _ _ _ Hit) as ((e0 & tl & -> & _) & _).
  destruct c.
  - destruct (loop ParseTime cfg world rnd rest st1) as [[tr2 st2] e2].
    intros H. inversion H.
  - intros H. inversion H.
  - intros H. inversion H.
Qed.



(** A property of the disk that every fetch keeps is kept by the retries. *)
Lemma retryLoop_preserves (Q : filesys -> Prop) (i : Z) :
  (forall k st1 res st2,
     fetch ParseTime cfg world i k st1 = (res, st2) -> Q (files st1) -> Q (files st2)) ->
  forall (n k : nat) (st st' : runState) (tr : list event) (e : retryEnd),
    retryLoop ParseTime cfg world rnd n k i st = (tr, st', e) ->
    Q (files st) -> Q (files st').
Proof.
  intros Hstep. induction n as [|n IH]; intros k st st' tr e Hrun HQ; cbn [retryLoop] in Hrun.
  - inversion Hrun; subst. exact HQ.
  - destruct (fetch ParseTime cfg world i k st) as [res st1] eqn:Hf.
    pose proof (Hstep _ _ _ _ Hf HQ) as HQ1.
    destruct (isSuccess res).
    + inversion Hrun; subst. exact HQ1.
    + destruct (sleep cfg rnd (retryWait cfg res) st1) as [[ev st2] returned] eqn:Hsl.
      pose proof (sleep_files _ _ _ _ _ Hsl) as Hfiles.
      destruct returned.
      * destruct (retryLoop ParseTime cfg world rnd n (S k) i st2)
          as [[tr' st3] e'] eqn:Hrec.
        inversion Hrun; subst. apply (IH _ _ _ _ _ Hrec). rewrite Hfiles. exact HQ1.
      * inversion Hrun; subst. rewrite Hfiles. exact HQ1.
Qed.

(** In one turn of the loop the disk changes only through fetches for the
    index, and there is none when the file of the index exists. *)
Lemma iteration_preserves (Q : filesys -> Prop) (i : Z) (st st' : runState)
    (tr : list event) (ctl : control) :
  (files st !! fileNow cfg i = None ->
   forall k st1 res st2,
     fetch ParseTime cfg world i k st1 = (res, st2) -> Q (files st1) -> Q (files st2)) ->
  iteration ParseTime cfg world rnd i st = (tr, st', ctl) ->
  Q (files st) ->
  (is_Some (files st !! fileNow cfg i) -> files st' = files st /\ requests tr = O)
  /\ Q (files st').
Proof.
  unfold iteration. intros Hstep Hrun HQ.
  destruct (bool_decide (is_Some (files st !! fileNow cfg i))) eqn:Hb.
  - destruct (sleep cfg rnd (seconds (interval cfg)) st) as [[ev st1] returned] eqn:Hsl.
    destruct (sleep_inv _ _ _ _ _ _ _ Hsl) as (out & -> & _).
    pose proof (sleep_files _ _ _ _ _ Hsl) as Hfiles.
    inversion Hrun; subst. rewrite Hfiles. split; [|exact HQ].
    intros _. split; reflexivity.
  - apply bool_decide_eq_false in Hb. split; [intros Hs; contradiction|].
    assert (Habsent : files st !! fileNow cfg i = None) by (apply eq_None_not_Some; exact Hb).
    specialize (Hstep Habsent).
    destruct (fetch ParseTime cfg world i 0 st) as [res st1] eqn:Hf.
    pose proof (Hstep _ _ _ _ Hf HQ) as HQ1.
    destruct (isFailure res).
    + cbv zeta in Hrun. set (consec := wrap64 (consecErrors st1 + 1)) in *.
      destruct (maxErrors cfg <=? consec).
      * inversion Hrun; subst. exact HQ1.
      * destruct (sleep cfg rnd (errorWait cfg consec res) _)
          as [[ev st2] returned] eqn:Hsl.
        pose proof (sleep_files _ _ _ _ _ Hsl) as Hfiles. simpl in Hfiles.
        destruct returned.
        -- destruct (retryLoop ParseTime cfg world rnd (Z.to_nat (retries cfg)) 1 i st2)
             as [[trr st3] e] eqn:Hretry.
           assert (HQ3 : Q (files st3)).
           { apply (retryLoop_preserves Q i Hstep _ _ _ _ _ _ Hretry).
             rewrite Hfiles. exact HQ1. }
           destruct e.
           ++ destruct (politeWait cfg rnd i st3) as [[trp st4] c] eqn:Hpol.
              destruct (politeWait_shape _ _ _ _ _ Hpol) as (Hf4 & _).
              inversion Hrun; subst. rewrite Hf4. exact HQ3.
           ++ inversion Hrun; subst. exact HQ3.
           ++ inversion Hrun; subst. exact HQ3.
        -- inversion Hrun; subst. rewrite Hfiles. exact HQ1.
    + cbv zeta in Hrun.
      destruct (politeWait cfg rnd i _) as [[trp st2] c] eqn:Hpol.
      destruct (politeWait_shape _ _ _ _ _ Hpol) as (Hf2 & _). simpl in Hf2.
      inversion Hrun; subst. rewrite Hf2. exact HQ1.
Qed.

Lemma loop_preserves (Q : filesys -> Prop) (idx : list Z) :
  (forall i k st0 st1 res st2,
     Q (files st0) -> files st0 !! fileNow cfg i = None ->
     fetch ParseTime cfg world i k st1 = (res, st2) -> Q (files st1) -> Q (files st2)) ->
  forall (st st' : runState) (tr : list event) (e : ending),
    loop ParseTime cfg world rnd idx st = (tr, st', e) ->
    Q (files st) -> Q (files st').
Proof.
  intros Hstep. induction idx as [|i rest IH]; intros st st' tr e Hrun HQ; cbn [loop] in Hrun.
  - inversion Hrun; subst. exact HQ.
  - destruct (iteration ParseTime cfg world rnd i st) as [[tr1 st1] c] eqn:Hit.
    destruct (iteration_preserves Q i _ _ _ _
                (fun Ha k s1 r s2 => Hstep i k st s1 r s2 HQ Ha) Hit HQ) as [_ HQ1].
    destruct c.
    + destruct (loop ParseTime cfg world rnd rest st1) as [[tr2 st2] e2] eqn:Hrest.
      inversion Hrun; subst. apply (IH _ _ _ _ Hrest HQ1).
    + inversion Hrun; subst. exact HQ1.
    + inversion Hrun; subst. exact HQ1.
Qed.


End WholeRun.





(** A run overwrites nothing: a path that holds data when the run starts,
    and is not the temporary path of a file of the range, holds the same
    data when the run ends.  In particular a file downloaded by an earlier
    run is not downloaded again over itself. *)
Theorem existing_files_kept (ParseTime : string -> option Z) (cfg : config)
    (world : Z -> nat -> attempt) (rnd : nat -> Z) (fs : filesys)
    (p d : string) :
  fs !! p = Some d ->
  (forall j, p <> fileNow cfg j +:+ ".part") ->
  files (snd (fst (run ParseTime cfg world rnd fs))) !! p = Some d.
Proof.
  intros Hp Hpart. unfold run.
  destruct (loop _ _ _ _ _ _) as [[tr st'] en] eqn:Hrun. simpl.
  refine (loop_preserves ParseTime cfg world rnd (fun now => now !! p = Some d)
            _ _ _ _ _ _ Hrun Hp).
  intros i k st0 st1 res st2 HQ0 Habsent Hf HQ1.
  destruct (fetch_files _ _ _ _ _ _ _ _ Hf) as (ops & Hdl & ->).
  rewrite (downloadFile_frame _ _ _ _ _ _ p Hdl); [exact HQ1 | | apply Hpart].
  intros ->. congruence.
Qed.

Lemma existing_files_kept_witness :
  files (snd (fst (run sampleDates (sample 2 8 64 66)
                     (server (answer 200 "" "data") (answer 200 "" "data")) lowDraws
                     (<["path/0065.png" := "old"]> ∅))))
    !! "path/0065.png" = Some "old".
Proof.
  apply (existing_files_kept sampleDates (sample 2 8 64 66)
           (server (answer 200 "" "data") (answer 200 "" "data")) lowDraws
           (<["path/0065.png" := "old"]> ∅) "path/0065.png" "old").
  - vm_compute. reflexivity.
  - intros j H. apply (f_equal String.length) in H.
    unfold fileNow in H. rewrite !length_append in H. simpl in H. lia.
Defined.

(** No partial file is ever published: at the end of a run a path that is
    not a temporary path holds what it held at the start, or the whole body
    of a response with status 200 to a request for the file of that path. *)
Theorem published_files_whole (ParseTime : string -> option Z) (cfg : config)
    (world : Z -> nat -> attempt) (rnd : nat -> Z) (fs : filesys) (p : string) :
  (forall j, p <> fileNow cfg j +:+ ".part") ->
  files (snd (fst (run ParseTime cfg world rnd fs))) !! p = fs !! p
  \/ exists i k ra body,
       p = fileNow cfg i
       /\ reply (world i k) = Response 200 ra body
       /\ files (snd (fst (run ParseTime cfg world rnd fs))) !! p = Some body.
Proof.
  intros Hpart. unfold run.
  destruct (loop _ _ _ _ _ _) as [[tr st'] en] eqn:Hrun. simpl.
  refine (loop_preserves ParseTime cfg world rnd
            (fun now => now !! p = fs !! p
               \/ exists i k ra body,
                    p = fileNow cfg i
                    /\ reply (world i k) = Response 200 ra body
                    /\ now !! p = Some body)
            _ _ _ _ _ _ Hrun (or_introl eq_refl)).
  intros i k st0 st1 res st2 _ _ Hf HQ.
  destruct (fetch_files _ _ _ _ _ _ _ _ Hf) as (ops & Hdl & ->).
  assert (Hsame : applyOps (files st1) ops !! p = files st1 !! p ->
            applyOps (files st1) ops !! p = fs !! p
            \/ exists i k ra body,
                 p = fileNow cfg i
                 /\ reply (world i k) = Response 200 ra body
                 /\ applyOps (files st1) ops !! p = Some body).
  { intros ->. exact HQ. }
  destruct (decide (p = fileNow cfg i)) as [Hpi | Hne].
  - destruct (downloadFile_dest _ _ _ (files st1) _ _ Hdl)
      as [Hold | (ra & body & Hr & Hb)].
    + apply Hsame. rewrite Hpi. exact Hold.
    + right. exists i, k, ra, body. rewrite Hpi. repeat split; assumption.
  - apply Hsame. apply (downloadFile_frame _ _ _ _ _ _ p Hdl Hne (Hpart i)).
Qed.

Lemma published_files_whole_witness :
  files (snd (fst (run sampleDates (sample 2 8 64 66)
                     (server (answer 200 "" "data") (answer 200 "" "data")) lowDraws ∅)))
    !! "path/0064.png" = (∅ : filesys) !! "path/0064.png"
  \/ exists i k ra body,
       "path/0064.png" = fileNow (sample 2 8 64 66) i
       /\ reply (server (answer 200 "" "data") (answer 200 "" "data") i k)
          = Response 200 ra body
       /\ files (snd (fst (run sampleDates (sample 2 8 64 66)
                             (server (answer 200 "" "data") (answer 200 "" "data"))
                             lowDraws ∅)))
            !! "path/0064.png" = Some body.
Proof.
  apply (published_files_whole sampleDates (sample 2 8 64 66)
           (server (answer 200 "" "data") (answer 200 "" "data")) lowDraws ∅
           "path/0064.png").
  intros j H. apply (f_equal String.length) in H.
  unfold fileNow in H. rewrite !length_append in H. simpl in H. lia.
Defined.



(** ** The jitter fraction is not validated *)

Lemma toDuration_range (q : Q) : min_int64 <= toDuration q <= max_int64.
Proof.
  unfold toDuration. cbv zeta. destruct (in_int64 (truncQ q)) eqn:H.
  - unfold in_int64 in H. apply andb_true_iff in H as [H1 H2].
    apply Z.leb_le in H1. apply Z.leb_le in H2. lia.
  - unfold min_int64, max_int64. lia.
Qed.

Lemma zero_in_range : min_int64 <= 0 <= max_int64.
Proof. unfold min_int64, max_int64. lia. Qed.

Lemma parseRetryAfter_range (ParseTime : string -> option Z) (now : Z) (v : string)
    (d : Z) (ok : bool) :
  parseRetryAfter ParseTime now v = (d, ok) -> min_int64 <= d <= max_int64.
Proof.
  unfold parseRetryAfter. cbv zeta.
  assert (Hdate : forall d' ok',
            match ParseTime v with
            | Some t => ((if Until t now <? 0 then 0 else Until t now), true)
            | None => (0, false)
            end = (d', ok') -> min_int64 <= d' <= max_int64).
  { intros d' ok'. destruct (ParseTime v) as [t|]; intros H; inversion H; subst.
    - destruct (Z.ltb_spec (Until t now) 0); [apply zero_in_range|].
      unfold Until, clamp64.
      destruct (Z.ltb_spec (t - now) min_int64); [unfold min_int64, max_int64; lia|].
      destruct (Z.ltb_spec max_int64 (t - now)); [unfold min_int64, max_int64; lia|].
      lia.
    - apply zero_in_range. }
  destruct (Atoi (TrimSpace v)) as [secs|]; [|apply Hdate].
  destruct (0 <=? secs); [|apply Hdate].
  intros H. inversion H; subst. apply wrap64_range.
Qed.

Lemma downloadFile_range (ParseTime : string -> option Z) (a : attempt) (file : string)
    (res : dlResult) (ops : list fsOp) :
  downloadFile ParseTime a file = (res, ops) ->
  min_int64 <= RetryAfter res <= max_int64.
Proof.
  unfold downloadFile. intros Hdl.
  destruct (reply a) as [e|e|status ra body].
  - inversion Hdl; subst. apply zero_in_range.
  - inversion Hdl; subst. apply zero_in_range.
  - remember (if String.eqb ra EmptyString then mkResult status 0 None
              else match parseRetryAfter ParseTime (clock a) ra with
                   | (dur, true) => mkResult status dur None
                   | (_, false) => mkResult status 0 None
                   end) as res0 eqn:Hdef.
    assert (H0 : min_int64 <= RetryAfter res0 <= max_int64).
    { subst res0. destruct (String.eqb ra EmptyString); [apply zero_in_range|].
      destruct (parseRetryAfter ParseTime (clock a) ra) as [dur [|]] eqn:Hp.
      - simpl. apply (parseRetryAfter_range _ _ _ _ _ Hp).
      - apply zero_in_range. }
    clear Hdef. cbv zeta in Hdl.
    destruct (negb (status =? 200)); [inversion Hdl; subst; exact H0|].
    destruct (createErr (disk a)); [inversion Hdl; subst; exact H0|].
    destruct (copyErr (disk a)) as [[n e]|]; [inversion Hdl; subst; exact H0|].
    destruct (closeErr (disk a)); [inversion Hdl; subst; exact H0|].
    destruct (renameErr (disk a)); inversion Hdl; subst; exact H0.
Qed.

(** With a fraction in [0, 1/2) the draw of the jitter has a positive
    bound below 2^63, whatever the base wait. *)
Lemma sleepWithJitter_returns (b : Z) (frac : Q) (r : Z) :
  min_int64 <= b <= max_int64 -> (0 <= frac)%Q -> (frac < 1 # 2)%Q ->
  sleepWithJitter b frac r <> SleepPanic.
Proof.
  intros Hb Hf0 Hf1. unfold sleepWithJitter.
  destruct (Z.leb_spec b 0) as [|Hpos]; [discriminate|]. cbv zeta.
  assert (Hq0 : (0 <= float64 b * frac)%Q).
  { unfold float64. apply Qmult_le_0_compat; [|exact Hf0].
    change 0%Q with (inject_Z 0). rewrite <- Zle_Qle. lia. }
  assert (Hq1 : (float64 b * frac < inject_Z (2 ^ 62))%Q).
  { unfold float64.
    assert (Hb1 : (0 < inject_Z b)%Q)
      by (change 0%Q with (inject_Z 0); rewrite <- Zlt_Qlt; lia).
    assert (Hb2 : (inject_Z b <= inject_Z (2 ^ 63))%Q)
      by (rewrite <- Zle_Qle; unfold max_int64 in Hb; lia).
    assert (Hhalf : (inject_Z (2 ^ 63) * (1 # 2) == inject_Z (2 ^ 62))%Q) by reflexivity.
    rewrite <- Hhalf. nra. }
  assert (Hj : 0 <= truncQ (float64 b * frac) < 2 ^ 62).
  { split; [apply truncQ_nonneg; exact Hq0|].
    rewrite truncQ_floor by exact Hq0.
    rewrite Zlt_Qlt. eapply Qle_lt_trans; [apply Qfloor_le | exact Hq1]. }
  rewrite toDuration_exact by (try exact Hq0; unfold max_int64; lia).
  unfold Int63n. rewrite wrap64_small by (unfold min_int64, max_int64; lia).
  destruct (Z.leb_spec (2 * truncQ (float64 b * frac) + 1) 0); [lia|].
  discriminate.
Qed.

Section NoPanic.

Variable ParseTime : string -> option Z.
Variable cfg : config.
Variable world : Z -> nat -> attempt.
Variable rnd : nat -> Z.

Hypothesis jitter_low : (0 <= jitterFrac cfg)%Q.
Hypothesis jitter_high : (jitterFrac cfg < 1 # 2)%Q.

Lemma sleep_returns (w : Z) (st st' : runState) (ev : event) (returned : bool) :
  min_int64 <= w <= max_int64 ->
  sleep cfg rnd w st = (ev, st', returned) -> returned = true.
Proof.
  intros Hw. unfold sleep. intros H. inversion H; subst.
  pose proof (sleepWithJitter_returns w (jitterFrac cfg) (rnd (draws st))
                Hw jitter_low jitter_high) as Hr.
  destruct (sleepWithJitter w (jitterFrac cfg) (rnd (draws st)));
    [reflexivity | reflexivity | congruence].
Qed.

Lemma fetch_range (i : Z) (k : nat) (st st' : runState) (res : dlResult) :
  fetch ParseTime cfg world i k st = (res, st') ->
  min_int64 <= RetryAfter res <= max_int64.
Proof.
  intros Hf. destruct (fetch_files _ _ _ _ _ _ _ _ Hf) as (ops & Hdl & _).
  apply (downloadFile_range _ _ _ _ _ Hdl).
Qed.

Lemma retryWait_range (res : dlResult) :
  min_int64 <= RetryAfter res <= max_int64 ->
  min_int64 <= retryWait cfg res <= max_int64.
Proof.
  intros H. unfold retryWait. cbv zeta.
  destruct (0 <? RetryAfter res); [exact H | apply wrap64_range].
Qed.

Lemma errorWait_range (c : Z) (res : dlResult) :
  min_int64 <= RetryAfter res <= max_int64 ->
  min_int64 <= errorWait cfg c res <= max_int64.
Proof.
  intros H. unfold errorWait, capWait. cbv zeta.
  match goal with |- context [if seconds (maxWait cfg) <? ?w then _ else _] =>
    assert (Hw : min_int64 <= w <= max_int64); [|destruct (seconds (maxWait cfg) <? w)]
  end.
  - destruct ((StatusCode res =? 429) && (0 <? RetryAfter res)); [exact H|].
    destruct ((StatusCode res =? 503) && (0 <? RetryAfter res)); [exact H|].
    apply toDuration_range.
  - apply wrap64_range.
  - exact Hw.
Qed.

Lemma retryLoop_no_crash (n : nat) :
  forall (k : nat) (i : Z) (st st' : runState) (tr : list event) (e : retryEnd),
    retryLoop ParseTime cfg world rnd n k i st = (tr, st', e) -> e <> RetryCrash.
Proof.
  induction n as [|n IH]; intros k i st st' tr e Hrun; cbn [retryLoop] in Hrun.
  - inversion Hrun; subst. discriminate.
  - destruct (fetch ParseTime cfg world i k st) as [res st1] eqn:Hf.
    destruct (isSuccess res); [inversion Hrun; subst; discriminate|].
    destruct (sleep cfg rnd (retryWait cfg res) st1) as [[ev st2] returned] eqn:Hsl.
    rewrite (sleep_returns _ _ _ _ _ (retryWait_range _ (fetch_range _ _ _ _ _ Hf)) Hsl)
      in Hrun.
    destruct (retryLoop ParseTime cfg world rnd n (S k) i st2) as [[tr' st3] e'] eqn:Hrec.
    inversion Hrun; subst. apply (IH _ _ _ _ _ _ Hrec).
Qed.

Lemma politeWait_no_crash (i : Z) (st st' : runState) (tr : list event) (ctl : control) :
  politeWait cfg rnd i st = (tr, st', ctl) -> ctl = Next.
Proof.
  unfold politeWait. destruct (i <? endNum cfg).
  - destruct (sleep cfg rnd (seconds (interval cfg)) st) as [[ev st1] returned] eqn:Hsl.
    rewrite (sleep_returns _ _ _ _ _ (wrap64_range _) Hsl).
    intros H. inversion H; subst. reflexivity.
  - intros H. inversion H; subst. reflexivity.
Qed.

Lemma iteration_no_crash (i : Z) (st st' : runState) (tr : list event) (ctl : control) :
  iteration ParseTime cfg world rnd i st = (tr, st', ctl) -> ctl <> Crash.
Proof.
  unfold iteration.
  destruct (bool_decide (is_Some (files st !! fileNow cfg i))).
  - destruct (sleep cfg rnd (seconds (interval cfg)) st) as [[ev st1] returned] eqn:Hsl.
    rewrite (sleep_returns _ _ _ _ _ (wrap64_range _) Hsl).
    intros H. inversion H; subst. discriminate.
  - destruct (fetch ParseTime cfg world i 0 st) as [res st1] eqn:Hf.
    destruct (isFailure res).
    + cbv zeta. set (consec := wrap64 (consecErrors st1 + 1)).
      destruct (maxErrors cfg <=? consec); [intros H; inversion H; subst; discriminate|].
      destruct (sleep cfg rnd (errorWait cfg consec res) _) as [[ev st2] returned] eqn:Hsl.
      rewrite (sleep_returns _ _ _ _ _
                 (errorWait_range consec _ (fetch_range _ _ _ _ _ Hf)) Hsl).
      destruct (retryLoop ParseTime cfg world rnd (Z.to_nat (retries cfg)) 1 i st2)
        as [[trr st3] e] eqn:Hretry.
      pose proof (retryLoop_no_crash _ _ _ _ _ _ _ Hretry) as He.
      destruct e; [| intros H; inversion H; subst; discriminate | congruence].
      destruct (politeWait cfg rnd i st3) as [[trp st4] c] eqn:Hpol.
      rewrite (politeWait_no_crash _ _ _ _ _ Hpol).
      intros H. inversion H; subst. discriminate.
    + cbv zeta. destruct (politeWait cfg rnd i _) as [[trp st2] c] eqn:Hpol.
      rewrite (politeWait_no_crash _ _ _ _ _ Hpol).
      intros H. inversion H; subst. discriminate.
Qed.

Lemma loop_no_panic (idx : list Z) :
  forall (st st' : runState) (tr : list event) (e : ending),
    loop ParseTime cfg world rnd idx st = (tr, st', e) -> e <> Panicked.
Proof.
  induction idx as [|i rest IH]; intros st st' tr e Hrun; cbn [loop] in Hrun.
  - inversion Hrun; subst. discriminate.
  - destruct (iteration ParseTime cfg world rnd i st) as [[tr1 st1] c] eqn:Hit.
    pose proof (iteration_no_crash _ _ _ _ _ Hit) as Hc.
    destruct c; [| inversion Hrun; subst; discriminate | congruence].
    destruct (loop ParseTime cfg world rnd rest st1) as [[tr2 st2] e2] eqn:Hrest.
    inversion Hrun; subst. apply (IH _ _ _ _ Hrest).
Qed.

End NoPanic.

(** With a jitter fraction in [0, 1/2) no call of sleepWithJitter in a
    run panics, whatever the other settings, the server's answers (a
    Retry-After of any size included), the disk and the random draws:
    rand.Int63n always gets a positive bound, and the run ends normally or
    by the abort. *)
Theorem run_never_panics (ParseTime : string -> option Z) (cfg : config)
    (world : Z -> nat -> attempt) (rnd : nat -> Z) (fs : filesys) :
  (0 <= jitterFrac cfg)%Q -> (jitterFrac cfg < 1 # 2)%Q ->
  snd (run ParseTime cfg world rnd fs) <> Panicked.
Proof.
  intros H0 H1. unfold run.
  destruct (loop _ _ _ _ _ _) as [[tr st'] en] eqn:Hrun. simpl.
  apply (loop_no_panic ParseTime cfg world rnd H0 H1 _ _ _ _ _ Hrun).
Qed.

Lemma run_never_panics_witness :
  snd (run sampleDates (sample 2 8 64 66)
         (server (answer 429 "9000000000" "") (answer 503 "9000000000" "")) lowDraws ∅)
  <> Panicked.
Proof.
  apply (run_never_panics sampleDates (sample 2 8 64 66)
           (server (answer 429 "9000000000" "") (answer 503 "9000000000" "")) lowDraws ∅).
  - vm_compute. discriminate.
  - vm_compute. reflexivity.
Defined.

(** A negative jitter fraction is accepted by the flags and makes a wait
    panic: when base * jitterFrac is -1 or less (and not below -2^62) the
    bound given to rand.Int63n is negative, for every positive base. *)
Theorem negative_jitter_panics (base : Z) (jitterFrac : Q) (r : Z) :
  0 < base ->
  (inject_Z (- 2 ^ 62) <= float64 base * jitterFrac)%Q ->
  (float64 base * jitterFrac <= inject_Z (- 1))%Q ->
  sleepWithJitter base jitterFrac r = SleepPanic.
Proof.
  intros Hb Hlo Hhi. unfold sleepWithJitter.
  destruct (Z.leb_spec base 0) as [|_]; [lia|]. cbv zeta.
  set (q := (float64 base * jitterFrac)%Q) in *.
  assert (Hneg : truncQ q = - truncQ (- q)).
  { destruct q as [n d]. unfold truncQ. simpl. rewrite Z.quot_opp_l by lia. lia. }
  assert (Hq0 : (0 <= - q)%Q).
  { apply (Qopp_le_compat q 0). eapply Qle_trans; [exact Hhi|]. discriminate. }
  assert (H1 : 1 <= truncQ (- q)).
  { rewrite truncQ_floor by exact Hq0. rewrite <- (Qfloor_Z 1).
    apply Qfloor_resp_le. apply (Qopp_le_compat q (inject_Z (- 1))). exact Hhi. }
  assert (H2 : truncQ (- q) <= 2 ^ 62).
  { apply truncQ_upper; [exact Hq0|].
    apply (Qopp_le_compat (inject_Z (- 2 ^ 62)) q). exact Hlo. }
  assert (Hj : toDuration q = truncQ q).
  { unfold toDuration. cbv zeta. rewrite in_int64_true; [reflexivity|].
    unfold min_int64, max_int64. lia. }
  rewrite Hj. unfold Int63n.
  rewrite wrap64_small by (unfold min_int64, max_int64; lia).
  destruct (Z.leb_spec (2 * truncQ q + 1) 0); [reflexivity | lia].
Qed.

Lemma negative_jitter_panics_witness :
  sleepWithJitter 6000000000 (- (1 # 4)) 7 = SleepPanic.
Proof.
  apply (negative_jitter_panics 6000000000 (- (1 # 4)) 7).
  - lia.
  - vm_compute. discriminate.
  - vm_compute. discriminate.
Defined.

(** Without jitter the wait is exact: with a fraction of zero a positive
    base wait is slept as it is, whatever the random draw. *)
Theorem no_jitter_exact_wait (base : Z) (jitterFrac : Q) (r : Z) :
  0 < base <= max_int64 ->
  (jitterFrac == 0)%Q ->
  sleepWithJitter base jitterFrac r = Slept base.
Proof.
  intros Hb Hz. unfold sleepWithJitter.
  destruct (Z.leb_spec base 0) as [|_]; [lia|]. cbv zeta.
  assert (Hq : truncQ (float64 base * jitterFrac) = 0).
  { destruct jitterFrac as [n d]. unfold Qeq in Hz. simpl in Hz.
    assert (n = 0) as -> by lia.
    unfold truncQ, float64. simpl. rewrite Z.mul_0_r. apply Z.quot_0_l. lia. }
  unfold toDuration. cbv zeta. rewrite Hq. simpl in_int64. cbv iota.
  unfold Int63n. change (wrap64 (2 * 0 + 1)) with 1. simpl.
  rewrite Z.mod_1_r. change (wrap64 (0 - 0)) with 0.
  rewrite Z.add_0_r, wrap64_small by (unfold min_int64, max_int64 in *; lia).
  destruct (Z.ltb_spec base 0); [lia | reflexivity].
Qed.

Lemma no_jitter_exact_wait_witness :
  sleepWithJitter 6000000000 0 7 = Slept 6000000000.
Proof.
  apply (no_jitter_exact_wait 6000000000 0 7).
  - unfold max_int64. lia.
  - reflexivity.
Defined.
